(** * payment-svc: the idempotent charge / refund engine

    A shallow embedding of [payments/models.py], [payments/serializers.py],
    [payments/events.py] and [payments/views.py].

    Conventions of the embedding.
    - A [Decimal] with two decimal places is an integer number of cents
      ([Z]); [Decimal('100.00')] is [10000].
    - The relational store is passed explicitly ([Store]).  A
      [transaction.atomic()] block either commits the store it computed or,
      when an exception leaves the block, falls back to the store it started
      from; what already happened outside the store (gateway calls, broker
      traffic) stays.
    - The simulated gateway draws random numbers and the payment reference is
      drawn from the date and a UUID: both are supplied by the environment of
      a call ([ChargeEnv]).
    - The RabbitMQ broker is a parameter too ([Broker]): one flag for each
      call into [pika] made by [publish_payment_event].
    - [created_at], [updated_at] and [expires_at] are written but never read
      by the operations below and are left out of the records. *)

From stdpp Require Import gmap strings pretty list.
From Stdlib Require Import ZArith Lia.

Open Scope Z_scope.

(* ===================================================================== *)
(** ** payments/models.py *)
(* ===================================================================== *)

Module Idem.

(** [IdempotencyKey.status]; the column defaults to ['PROCESSING']. *)
Inductive Status := PROCESSING | COMPLETED | FAILED.

#[global] Instance Status_eq_dec : EqDecision Status.
Proof. solve_decision. Defined.

End Idem.

(** [Payment.PAYMENT_STATUS] *)
Inductive PaymentStatus := PENDING | SUCCESS | FAILED | REFUNDED | PARTIAL_REFUND.

#[global] Instance PaymentStatus_eq_dec : EqDecision PaymentStatus.
Proof. solve_decision. Defined.

(** The keys of [Payment.PAYMENT_METHODS]. *)
Definition PAYMENT_METHODS : list string := ["CARD"; "UPI"; "COD"; "NET_BANKING"].

(** The dict returned by [process_payment_gateway]: ['success'] with a
    transaction id, or a decline with its ['reason']. *)
Inductive GatewayResult :=
| GwSuccess (transaction_id : Z)
| GwDeclined (reason : option string).

Record Payment := mkPayment {
  payment_id : Z;
  order_id : Z;
  amount : Z;
  method : string;
  status : PaymentStatus;
  reference : string;
  refunded_amount : Z;
  gateway_response : option GatewayResult;
  failure_reason : option string
}.

(** [PaymentSerializer(payment).data] *)
Record PaymentView := mkView {
  v_payment_id : Z;
  v_order_id : Z;
  v_amount : Z;
  v_method : string;
  v_status : PaymentStatus;
  v_reference : string;
  v_refunded_amount : Z;
  v_failure_reason : option string
}.

Definition PaymentSerializer (p : Payment) : PaymentView :=
  {| v_payment_id := payment_id p; v_order_id := order_id p;
     v_amount := amount p; v_method := method p; v_status := status p;
     v_reference := reference p; v_refunded_amount := refunded_amount p;
     v_failure_reason := failure_reason p |}.

(** Request bodies after parsing.  A body with a field that is missing or of
    the wrong JSON type is answered [validation_error] before anything else
    happens; the records hold the bodies that get past that. *)
Record ChargeRequest := mkChargeRequest {
  c_order_id : Z;
  c_amount : Z;
  c_method : string;
  c_idempotency_key : string
}.

Record RefundRequest := mkRefundRequest {
  r_amount : option Z;
  r_reason : option string;
  r_idempotency_key : string
}.

Inductive RequestData :=
| ChargeData (r : ChargeRequest)
| RefundData (r : RefundRequest).

Inductive ResponseData :=
| PaymentData (v : PaymentView)
| ErrorData (reason : option string).

(** A row of [idempotency_keys] without its primary key [key], which is the
    key of the map in [Store]. *)
Record IdempotencyKey := mkIdempotencyKey {
  payment : option Z;                 (* foreign key, nullable *)
  request_data : RequestData;
  response_data : option ResponseData;
  idem_status : Idem.Status
}.

(** The two tables.  [payments] is kept newest first
    ([Meta.ordering = ['-created_at']]); [next_payment_id] is the
    [AutoField] sequence. *)
Record Store := mkStore {
  payments : list Payment;
  next_payment_id : Z;
  idempotency_keys : gmap string IdempotencyKey
}.

Definition empty_store : Store :=
  {| payments := []; next_payment_id := 1; idempotency_keys := ∅ |}.

(** [Payment.objects.get(payment_id=...)] *)
Fixpoint get_payment (pid : Z) (ps : list Payment) : option Payment :=
  match ps with
  | [] => None
  | p :: rest => if decide (payment_id p = pid) then Some p else get_payment pid rest
  end.

(** [payment.save()] of a row that exists: the row with that primary key is
    overwritten. *)
Fixpoint save_row (p : Payment) (ps : list Payment) : list Payment :=
  match ps with
  | [] => []
  | q :: rest =>
      if decide (payment_id q = payment_id p) then p :: save_row p rest
      else q :: save_row p rest
  end.

Definition save_payment (p : Payment) (db : Store) : Store :=
  {| payments := save_row p (payments db);
     next_payment_id := next_payment_id db;
     idempotency_keys := idempotency_keys db |}.

(** [idem_key.save()], for the row with primary key [k] *)
Definition save_idempotency_key (k : string) (row : IdempotencyKey) (db : Store)
  : Store :=
  {| payments := payments db;
     next_payment_id := next_payment_id db;
     idempotency_keys := <[k := row]> (idempotency_keys db) |}.

(** [IdempotencyKey.objects.get_or_create(key=..., defaults=...)]: the record
    found or made, whether it was made, and the store afterwards. *)
Definition get_or_create (k : string) (defaults : IdempotencyKey) (db : Store)
  : IdempotencyKey * bool * Store :=
  match idempotency_keys db !! k with
  | Some row => (row, false, db)
  | None => (defaults, true, save_idempotency_key k defaults db)
  end.

(** The [unique=True] constraint on [Payment.reference]. *)
Definition reference_taken (ref : string) (ps : list Payment) : bool :=
  existsb (fun p => bool_decide (reference p = ref)) ps.

Definition set_status (s : PaymentStatus) (p : Payment) : Payment :=
  {| payment_id := payment_id p; order_id := order_id p; amount := amount p;
     method := method p; status := s; reference := reference p;
     refunded_amount := refunded_amount p;
     gateway_response := gateway_response p;
     failure_reason := failure_reason p |}.

Definition set_refunded_amount (r : Z) (p : Payment) : Payment :=
  {| payment_id := payment_id p; order_id := order_id p; amount := amount p;
     method := method p; status := status p; reference := reference p;
     refunded_amount := r;
     gateway_response := gateway_response p;
     failure_reason := failure_reason p |}.

Definition set_gateway_response (g : GatewayResult) (p : Payment) : Payment :=
  {| payment_id := payment_id p; order_id := order_id p; amount := amount p;
     method := method p; status := status p; reference := reference p;
     refunded_amount := refunded_amount p;
     gateway_response := Some g;
     failure_reason := failure_reason p |}.

Definition set_failure_reason (s : string) (p : Payment) : Payment :=
  {| payment_id := payment_id p; order_id := order_id p; amount := amount p;
     method := method p; status := status p; reference := reference p;
     refunded_amount := refunded_amount p;
     gateway_response := gateway_response p;
     failure_reason := Some s |}.

Definition link_payment (pid : Z) (k : IdempotencyKey) : IdempotencyKey :=
  {| payment := Some pid; request_data := request_data k;
     response_data := response_data k; idem_status := idem_status k |}.

Definition finalize (s : Idem.Status) (r : ResponseData) (k : IdempotencyKey)
  : IdempotencyKey :=
  {| payment := payment k; request_data := request_data k;
     response_data := Some r; idem_status := s |}.

(* ===================================================================== *)
(** ** payments/serializers.py *)
(* ===================================================================== *)

(** [DecimalField(max_digits=10, decimal_places=2)]: at most
    [99999999.99] in absolute value. *)
Definition MAX_DECIMAL : Z := 9999999999.

(** [ChargePaymentSerializer(data=...).is_valid()] *)
Definition charge_is_valid (r : ChargeRequest) : bool :=
  (1 <=? c_order_id r)
  && (1 <=? c_amount r) && (c_amount r <=? MAX_DECIMAL)
  && bool_decide (c_method r ∈ PAYMENT_METHODS)
  && (10 <=? Z.of_nat (String.length (c_idempotency_key r)))
  && (Z.of_nat (String.length (c_idempotency_key r)) <=? 255).

(** [RefundPaymentSerializer(data=...).is_valid()]: a supplied amount is
    within the field's precision and, by [validate_amount], greater than 0;
    the text fields are not blank and within their [max_length] (a text is
    taken as it is after the field stripped the surrounding whitespace). *)
Definition refund_amount_is_valid (a : option Z) : bool :=
  match a with
  | None => true
  | Some v => (Z.abs v <=? MAX_DECIMAL) && negb (v <=? 0)
  end.

Definition text_is_valid (max_length : Z) (s : string) : bool :=
  (1 <=? Z.of_nat (String.length s)) && (Z.of_nat (String.length s) <=? max_length).

Definition refund_is_valid (r : RefundRequest) : bool :=
  refund_amount_is_valid (r_amount r)
  && match r_reason r with None => true | Some s => text_is_valid 500 s end
  && text_is_valid 255 (r_idempotency_key r).

(* ===================================================================== *)
(** ** payments/events.py *)
(* ===================================================================== *)

Inductive JsonValue :=
| JInt (n : Z)
| JFloat (cents : Z)          (* [float(decimal)], kept as the cents it came from *)
| JStr (s : string).

(** A dict literal, in the order it is written. *)
Definition EventData := list (string * JsonValue).

(** The JSON body handed to [basic_publish]; the routing key is
    [event_type]. *)
Record Message := mkMessage {
  event_type : string;
  timestamp : string;
  data : EventData
}.

(** [data.get(k)] *)
Fixpoint dict_get (k : string) (d : EventData) : option JsonValue :=
  match d with
  | [] => None
  | (k', v) :: rest => if decide (k' = k) then Some v else dict_get k rest
  end.

Definition has_key (k : string) (d : EventData) : bool :=
  match dict_get k d with Some _ => true | None => false end.

(** What the broker does during one call of [publish_payment_event], one
    flag for each call into [pika]:
    [get_rabbitmq_connection()] yields a connection, [connection.channel()],
    [channel.exchange_declare(...)] and [channel.basic_publish(...)] return,
    [connection.is_closed] when the [finally] clause is reached, and
    [connection.close()] returns. *)
Record Broker := mkBroker {
  connects : bool;
  channel_opens : bool;
  exchange_declares : bool;
  publish_accepted : bool;
  is_closed : bool;
  close_returns : bool
}.

Inductive PublishResult :=
| Returned (b : bool)
| Raised.

(** [publish_payment_event(event_type, data)]: its result and what reached
    the exchange.  None of the dicts built by the callers has a
    ['timestamp'] entry unless they put one, hence [dict_get]. *)
Definition publish_payment_event (b : Broker) (ty : string) (d : EventData)
  : PublishResult * list Message :=
  if negb (connects b) then (Returned false, [])
  else
    let message :=
      {| event_type := ty;
         timestamp := match dict_get "timestamp" d with
                      | Some (JStr s) => s
                      | _ => ""
                      end;
         data := d |} in
    let '(result, sent) :=
      if channel_opens b && exchange_declares b && publish_accepted b
      then (true, [message])
      else (false, []) in
    (* finally: if connection and not connection.is_closed: connection.close() *)
    if negb (is_closed b) && negb (close_returns b) then (Raised, sent)
    else (Returned result, sent).

(** What an operation did outside the store. *)
Record Effects := mkEffects {
  gateway_calls : list Z;                       (* payment ids handed to the gateway *)
  publish_calls : list (string * EventData);    (* calls of [publish_payment_event] *)
  delivered : list Message                      (* messages that reached the exchange *)
}.

Definition no_effects : Effects :=
  {| gateway_calls := []; publish_calls := []; delivered := [] |}.

Definition eff_app (e1 e2 : Effects) : Effects :=
  {| gateway_calls := gateway_calls e1 ++ gateway_calls e2;
     publish_calls := publish_calls e1 ++ publish_calls e2;
     delivered := delivered e1 ++ delivered e2 |}.

Definition eff_gateway (pid : Z) : Effects :=
  {| gateway_calls := [pid]; publish_calls := []; delivered := [] |}.

Definition eff_publish (ty : string) (d : EventData) (sent : list Message) : Effects :=
  {| gateway_calls := []; publish_calls := [(ty, d)]; delivered := sent |}.

(** The body of a [with transaction.atomic():] block: it leaves normally
    (also by [return]) with a store to commit, or an exception leaves it. *)
Inductive TxResult (A : Type) :=
| Commit (db : Store) (a : A) (e : Effects)
| Abort (e : Effects).

Arguments Commit {A} db a e.
Arguments Abort {A} e.

(** The dict published by [handle_order_cancellation]. *)
Definition cancellation_event (p : Payment) (refund_amount : Z) : EventData :=
  [("payment_id", JInt (payment_id p));
   ("order_id", JInt (order_id p));
   ("refund_amount", JFloat refund_amount);
   ("reason", JStr "Order cancellation")].

(** The [for payment in payments:] loop of [handle_order_cancellation];
    [brokers] gives the broker's behaviour at the call made for a payment. *)
Fixpoint cancellation_loop (brokers : Z -> Broker) (todo : list Payment)
    (db : Store) (e : Effects) : TxResult unit :=
  match todo with
  | [] => Commit db tt e
  | p :: rest =>
      if refunded_amount p <? amount p then
        let refund_amount := amount p - refunded_amount p in
        let p' := set_status REFUNDED
                    (set_refunded_amount (refunded_amount p + refund_amount) p) in
        let db' := save_payment p' db in
        let d := cancellation_event p' refund_amount in
        let '(res, sent) := publish_payment_event (brokers (payment_id p'))
                              "payment.refunded" d in
        let e' := eff_app e (eff_publish "payment.refunded" d sent) in
        match res with
        | Raised => Abort e'
        | Returned _ => cancellation_loop brokers rest db' e'
        end
      else cancellation_loop brokers rest db e
  end.

(** [Payment.objects.filter(order_id=order_id, status='SUCCESS')] *)
Definition successful_payments_of (oid : Z) (ps : list Payment) : list Payment :=
  filter (fun p => order_id p = oid ∧ status p = SUCCESS) ps.

(** [handle_order_cancellation(data)], with [data.get('order_id')] as
    [oid].  The function returns nothing; an exception inside the block is
    logged and the block's writes are undone. *)
Definition handle_order_cancellation (brokers : Z -> Broker) (db : Store)
    (oid : option Z) : Store * Effects :=
  match oid with
  | None => (db, no_effects)
  | Some o =>
      if decide (o = 0) then (db, no_effects)      (* [if not order_id] *)
      else
        match cancellation_loop brokers (successful_payments_of o (payments db))
                db no_effects with
        | Commit db' _ e => (db', e)
        | Abort e => (db, e)
        end
  end.

(* ===================================================================== *)
(** ** payments/views.py *)
(* ===================================================================== *)

(** The responses of the two POST views. *)
Inductive Response :=
| ValidationError                                   (* 400 validation_error *)
| ChargeReplayed (v : PaymentView)                  (* 200 Payment already processed (idempotent) *)
| DuplicateRequest                                  (* 409 duplicate_request *)
| PaymentSuccessful (v : PaymentView)               (* 201 Payment successful *)
| PaymentFailed (message : string) (v : PaymentView) (* 402 payment_failed *)
| ProcessingError                                   (* 500 processing_error *)
| NotFound                                          (* 404 not_found *)
| InvalidStatus                                     (* 400 invalid_status *)
| RefundReplayed (v : PaymentView)                  (* 200 Refund already processed (idempotent) *)
| InvalidAmount (remaining_amount : Z)              (* 400 invalid_amount *)
| RefundProcessed (refund_amount : Z) (v : PaymentView). (* 200 Refund processed successfully *)

Definition http_status (r : Response) : Z :=
  match r with
  | ValidationError | InvalidStatus | InvalidAmount _ => 400
  | ChargeReplayed _ | RefundReplayed _ | RefundProcessed _ _ => 200
  | DuplicateRequest => 409
  | PaymentSuccessful _ => 201
  | PaymentFailed _ _ => 402
  | ProcessingError => 500
  | NotFound => 404
  end.

Record Outcome := mkOutcome {
  store_after : Store;
  response : Response;
  effects : Effects
}.

(** Leaving the [with transaction.atomic():] block of a view whose
    [except Exception] answers 500. *)
Definition atomic (db : Store) (r : TxResult Response) : Outcome :=
  match r with
  | Commit db' resp e => {| store_after := db'; response := resp; effects := e |}
  | Abort e => {| store_after := db; response := ProcessingError; effects := e |}
  end.

(** What the environment contributes to one charge: the reference that
    [generate_reference] draws, the answer of [process_payment_gateway] and
    the broker. *)
Record ChargeEnv := mkChargeEnv {
  env_reference : string;
  env_gateway : GatewayResult;
  env_broker : Broker
}.

(** [Payment.objects.create(order_id=..., amount=..., method=...,
    status='PENDING')]: [None] when the reference drawn by [save] is taken. *)
Definition create_payment (ref : string) (r : ChargeRequest) (db : Store)
  : option (Payment * Store) :=
  if reference_taken ref (payments db) then None
  else
    let p := {| payment_id := next_payment_id db; order_id := c_order_id r;
                amount := c_amount r; method := c_method r; status := PENDING;
                reference := ref; refunded_amount := 0;
                gateway_response := None; failure_reason := None |} in
    Some (p, {| payments := p :: payments db;
                next_payment_id := next_payment_id db + 1;
                idempotency_keys := idempotency_keys db |}).

(** Lines 73 to 138 of [charge_payment]: from [Payment.objects.create] to the
    end of the block. *)
Definition charge_proceed (env : ChargeEnv) (req : ChargeRequest)
    (k : string) (idem_key : IdempotencyKey) (db : Store) : TxResult Response :=
  match create_payment (env_reference env) req db with
  | None => Abort no_effects
  | Some (payment0, db1) =>
      let idem_key1 := link_payment (payment_id payment0) idem_key in
      let db2 := save_idempotency_key k idem_key1 db1 in
      let payment_result := env_gateway env in
      let e1 := eff_gateway (payment_id payment0) in
      match payment_result with
      | GwSuccess _ =>
          let payment1 := set_gateway_response payment_result
                            (set_status SUCCESS payment0) in
          let db3 := save_payment payment1 db2 in
          let idem_key2 := finalize Idem.COMPLETED
                             (PaymentData (PaymentSerializer payment1)) idem_key1 in
          let db4 := save_idempotency_key k idem_key2 db3 in
          let d := [("payment_id", JInt (payment_id payment1));
                    ("order_id", JInt (order_id payment1));
                    ("amount", JFloat (amount payment1));
                    ("method", JStr (method payment1));
                    ("reference", JStr (reference payment1))] in
          let '(res, sent) := publish_payment_event (env_broker env)
                                "payment.succeeded" d in
          let e2 := eff_app e1 (eff_publish "payment.succeeded" d sent) in
          match res with
          | Raised => Abort e2
          | Returned _ =>
              Commit db4 (PaymentSuccessful (PaymentSerializer payment1)) e2
          end
      | GwDeclined reason =>
          let why := default "Payment declined" reason in
          let payment1 := set_gateway_response payment_result
                            (set_failure_reason why (set_status FAILED payment0)) in
          let db3 := save_payment payment1 db2 in
          let idem_key2 := finalize Idem.FAILED (ErrorData reason) idem_key1 in
          let db4 := save_idempotency_key k idem_key2 db3 in
          let d := [("payment_id", JInt (payment_id payment1));
                    ("order_id", JInt (order_id payment1));
                    ("amount", JFloat (amount payment1));
                    ("reason", JStr why)] in
          let '(res, sent) := publish_payment_event (env_broker env)
                                "payment.failed" d in
          let e2 := eff_app e1 (eff_publish "payment.failed" d sent) in
          match res with
          | Raised => Abort e2
          | Returned _ =>
              Commit db4 (PaymentFailed why (PaymentSerializer payment1)) e2
          end
      end
  end.

(** The block of [charge_payment], lines 49 to 138. *)
Definition charge_transaction (env : ChargeEnv) (req : ChargeRequest) (db : Store)
  : TxResult Response :=
  let idempotency_key := c_idempotency_key req in
  let defaults := {| payment := None;
                     request_data := ChargeData req; response_data := None;
                     idem_status := Idem.PROCESSING |} in
  let '(idem_key, created, db1) := get_or_create idempotency_key defaults db in
  if created then charge_proceed env req idempotency_key idem_key db1
  else
    match idem_status idem_key, payment idem_key with
    | Idem.COMPLETED, Some pid =>
        (* [idem_key.payment] follows the foreign key *)
        match get_payment pid (payments db1) with
        | Some p => Commit db1 (ChargeReplayed (PaymentSerializer p)) no_effects
        | None => Abort no_effects
        end
    | Idem.PROCESSING, _ => Commit db1 DuplicateRequest no_effects
    | _, _ => charge_proceed env req idempotency_key idem_key db1
    end.

(** [charge_payment(request)] *)
Definition charge_payment (env : ChargeEnv) (db : Store) (req : ChargeRequest)
  : Outcome :=
  if negb (charge_is_valid req) then
    {| store_after := db; response := ValidationError; effects := no_effects |}
  else atomic db (charge_transaction env req db).

(** [f"refund_{payment_id}_{idempotency_key}"] *)
Definition refund_key (pid : Z) (k : string) : string :=
  "refund_" +:+ pretty pid +:+ "_" +:+ k.

(** Lines 210 to 215 of [refund_payment]: the refund is added and the status
    follows from the new total. *)
Definition apply_refund (refund_amount : Z) (p : Payment) : Payment :=
  let p1 := set_refunded_amount (refunded_amount p + refund_amount) p in
  if amount p1 <=? refunded_amount p1
  then set_status REFUNDED p1
  else set_status PARTIAL_REFUND p1.

(** The block of [refund_payment], lines 180 to 239; [p] is the payment
    loaded before the block. *)
Definition refund_transaction (b : Broker) (pid : Z) (req : RefundRequest)
    (p : Payment) (db : Store) : TxResult Response :=
  let refund_key := refund_key pid (r_idempotency_key req) in
  let defaults := {| payment := Some (payment_id p);
                     request_data := RefundData req; response_data := None;
                     idem_status := Idem.PROCESSING |} in
  let '(idem_key, created, db1) := get_or_create refund_key defaults db in
  if negb created && bool_decide (idem_status idem_key = Idem.COMPLETED) then
    Commit db1 (RefundReplayed (PaymentSerializer p)) no_effects
  else
    let refund_amount := default (amount p - refunded_amount p) (r_amount req) in
    let remaining_amount := amount p - refunded_amount p in
    if remaining_amount <? refund_amount then
      Commit db1 (InvalidAmount remaining_amount) no_effects
    else
      let p2 := apply_refund refund_amount p in
      let db2 := save_payment p2 db1 in
      let idem_key1 := finalize Idem.COMPLETED
                         (PaymentData (PaymentSerializer p2)) idem_key in
      let db3 := save_idempotency_key refund_key idem_key1 db2 in
      let d := [("payment_id", JInt (payment_id p2));
                ("order_id", JInt (order_id p2));
                ("refund_amount", JFloat refund_amount);
                ("total_refunded", JFloat (refunded_amount p2));
                ("reason", JStr (default "Customer request" (r_reason req)))] in
      let '(res, sent) := publish_payment_event b "payment.refunded" d in
      let e := eff_publish "payment.refunded" d sent in
      match res with
      | Raised => Abort e
      | Returned _ =>
          Commit db3 (RefundProcessed refund_amount (PaymentSerializer p2)) e
      end.

(** [refund_payment(request, payment_id)] *)
Definition refund_payment (b : Broker) (db : Store) (pid : Z) (req : RefundRequest)
  : Outcome :=
  if negb (refund_is_valid req) then
    {| store_after := db; response := ValidationError; effects := no_effects |}
  else
    match get_payment pid (payments db) with
    | None => {| store_after := db; response := NotFound; effects := no_effects |}
    | Some p =>
        if negb (bool_decide (status p = SUCCESS)) then
          {| store_after := db; response := InvalidStatus; effects := no_effects |}
        else atomic db (refund_transaction b pid req p db)
    end.

(* ===================================================================== *)
(** ** Sequences of operations *)
(* ===================================================================== *)

(** One request or one consumed [order.cancelled] message, with what the
    environment does during it. *)
Inductive Op :=
| Charge (env : ChargeEnv) (req : ChargeRequest)
| Refund (b : Broker) (pid : Z) (req : RefundRequest)
| OrderCancelled (brokers : Z -> Broker) (oid : option Z).

(** The store together with everything that has happened outside it. *)
Record World := mkWorld {
  store : Store;
  history : Effects
}.

Definition initial_world : World :=
  {| store := empty_store; history := no_effects |}.

Definition step (w : World) (op : Op) : World :=
  match op with
  | Charge env req =>
      let o := charge_payment env (store w) req in
      {| store := store_after o; history := eff_app (history w) (effects o) |}
  | Refund b pid req =>
      let o := refund_payment b (store w) pid req in
      {| store := store_after o; history := eff_app (history w) (effects o) |}
  | OrderCancelled brokers oid =>
      let '(db, e) := handle_order_cancellation brokers (store w) oid in
      {| store := db; history := eff_app (history w) e |}
  end.

Definition run (ops : list Op) (w : World) : World := fold_left step ops w.

(** A broker that is up, and the ways it can fail. *)
Definition broker_up : Broker :=
  {| connects := true; channel_opens := true; exchange_declares := true;
     publish_accepted := true; is_closed := false; close_returns := true |}.

Definition broker_down : Broker :=
  {| connects := false; channel_opens := false; exchange_declares := false;
     publish_accepted := false; is_closed := true; close_returns := false |}.

(** The connection is made and the message is accepted, then the connection
    is lost while [connection.close()] runs. *)
Definition broker_lost_on_close : Broker :=
  {| connects := true; channel_opens := true; exchange_declares := true;
     publish_accepted := true; is_closed := false; close_returns := false |}.

(** [publish_payment_event] comes back to its caller. *)
Definition publish_returns (b : Broker) : bool :=
  negb (connects b) || is_closed b || close_returns b.

(* ===================================================================== *)
(** ** The refund accounting of a payment *)
(* ===================================================================== *)

(** The invariant that the specification puts on a payment. *)
Definition payment_ok (p : Payment) : Prop :=
  0 <= refunded_amount p <= amount p
  /\ (status p = REFUNDED <-> refunded_amount p = amount p)
  /\ (status p = PARTIAL_REFUND <-> 0 < refunded_amount p < amount p).

(** What holds of every row besides: the amount and the order passed
    [ChargePaymentSerializer], and the primary key came from the sequence. *)
Definition row_ok (next : Z) (p : Payment) : Prop :=
  payment_ok p /\ 1 <= amount p /\ 1 <= order_id p /\ payment_id p < next.

Definition store_ok (db : Store) : Prop :=
  Forall (row_ok (next_payment_id db)) (payments db)
  /\ NoDup (map payment_id (payments db)).

(** A payment after the cancellation handler refunded what remained. *)
Definition fully_refunded (p : Payment) : Payment :=
  set_status REFUNDED (set_refunded_amount (amount p) p).

(** The ledger has no completed record under a key. *)
Definition not_completed (k : string) (db : Store) : Prop :=
  forall row, idempotency_keys db !! k = Some row -> idem_status row <> Idem.COMPLETED.

(** [publish_payment_event] puts the message on the exchange. *)
Definition delivers (b : Broker) : bool :=
  connects b && channel_opens b && exchange_declares b && publish_accepted b.

(** No payment that is found in [ps] has a smaller refunded amount in [ps']
    (or is missing there). *)
Definition refunds_grow (ps ps' : list Payment) : Prop :=
  forall pid p, get_payment pid ps = Some p ->
    exists p', get_payment pid ps' = Some p'
               /\ refunded_amount p <= refunded_amount p'.

(** The row that a charge leaves behind once the gateway has answered. *)
Definition charged_row (env : ChargeEnv) (req : ChargeRequest) (db : Store)
  : Payment :=
  let p0 := {| payment_id := next_payment_id db; order_id := c_order_id req;
               amount := c_amount req; method := c_method req; status := PENDING;
               reference := env_reference env; refunded_amount := 0;
               gateway_response := None; failure_reason := None |} in
  match env_gateway env with
  | GwSuccess _ => set_gateway_response (env_gateway env) (set_status SUCCESS p0)
  | GwDeclined reason =>
      set_gateway_response (env_gateway env)
        (set_failure_reason (default "Payment declined" reason)
           (set_status FAILED p0))
  end.

(** The store with another [payments] table. *)
Definition with_payments (ps : list Payment) (db : Store) : Store :=
  {| payments := ps; next_payment_id := next_payment_id db;
     idempotency_keys := idempotency_keys db |}.

(** The call of [publish_payment_event] that [handle_order_cancellation]
    makes for a payment, and the message that goes out with it. *)
Definition cancellation_call (p : Payment) : string * EventData :=
  ("payment.refunded", cancellation_event p (amount p - refunded_amount p)).

Definition cancellation_message (p : Payment) : Message :=
  {| event_type := "payment.refunded"; timestamp := "";
     data := cancellation_event p (amount p - refunded_amount p) |}.

(** What the loop of [handle_order_cancellation] over [todo] makes of a
    row. *)
Definition cancel_row (todo : list Payment) (q : Payment) : Payment :=
  match get_payment (payment_id q) todo with
  | Some p => if refunded_amount p <? amount p then fully_refunded p else q
  | None => q
  end.

(** A row after an [order.cancelled] for order [o], as the specification has
    it: the successful payments of the order are refunded in full. *)
Definition refund_if_successful (o : Z) (q : Payment) : Payment :=
  if decide (order_id q = o /\ status q = SUCCESS) then fully_refunded q else q.

(** The data of a published event has no ['total_refunded'] entry; it is a
    [payment.refunded] with the five fields of the specification. *)
Definition lacks_total_refunded (c : string * EventData) : Prop :=
  has_key "total_refunded" (snd c) = false.

Definition refunded_event_complete (c : string * EventData) : Prop :=
  fst c = "payment.refunded"
  /\ Forall (fun k => has_key k (snd c) = true)
       ["payment_id"; "order_id"; "refund_amount"; "total_refunded"; "reason"].

(** The environment of a charge with another broker. *)
Definition with_broker (b : Broker) (env : ChargeEnv) : ChargeEnv :=
  {| env_reference := env_reference env; env_gateway := env_gateway env;
     env_broker := b |}.

(** The [defaults] of the [get_or_create] in [charge_payment]. *)
Definition charge_defaults (req : ChargeRequest) : IdempotencyKey :=
  {| payment := None; request_data := ChargeData req; response_data := None;
     idem_status := Idem.PROCESSING |}.

(** The ledger record, the answer and the published event of a charge that
    went through with the record [idem], on the store [db]. *)
Definition charge_record (env : ChargeEnv) (req : ChargeRequest)
    (idem : IdempotencyKey) (db : Store) : IdempotencyKey :=
  match env_gateway env with
  | GwSuccess _ =>
      finalize Idem.COMPLETED (PaymentData (PaymentSerializer (charged_row env req db)))
        (link_payment (next_payment_id db) idem)
  | GwDeclined reason =>
      finalize Idem.FAILED (ErrorData reason) (link_payment (next_payment_id db) idem)
  end.

Definition charge_response (env : ChargeEnv) (req : ChargeRequest) (db : Store)
  : Response :=
  match env_gateway env with
  | GwSuccess _ => PaymentSuccessful (PaymentSerializer (charged_row env req db))
  | GwDeclined reason =>
      PaymentFailed (default "Payment declined" reason)
        (PaymentSerializer (charged_row env req db))
  end.

Definition charge_event (env : ChargeEnv) (req : ChargeRequest) (db : Store)
  : string * EventData :=
  let p := charged_row env req db in
  match env_gateway env with
  | GwSuccess _ =>
      ("payment.succeeded",
       [("payment_id", JInt (payment_id p)); ("order_id", JInt (order_id p));
        ("amount", JFloat (amount p)); ("method", JStr (method p));
        ("reference", JStr (reference p))])
  | GwDeclined reason =>
      ("payment.failed",
       [("payment_id", JInt (payment_id p)); ("order_id", JInt (order_id p));
        ("amount", JFloat (amount p));
        ("reason", JStr (default "Payment declined" reason))])
  end.

(** The record with which [charge_payment] goes on to create a payment:
    the fresh one when the key is new, the stored one unless it is
    COMPLETED with a payment or PROCESSING; [None] when the view returns
    before [Payment.objects.create]. *)
Definition charge_proceeds_with (db : Store) (req : ChargeRequest)
  : option IdempotencyKey :=
  match idempotency_keys db !! c_idempotency_key req with
  | None => Some (charge_defaults req)
  | Some row =>
      match idem_status row, payment row with
      | Idem.COMPLETED, Some _ => None
      | Idem.PROCESSING, _ => None
      | _, _ => Some row
      end
  end.

(** How one operation can change the [payments] table: not at all, by the
    row of a charge, by a refund on one successful row, or by the refunds
    of a cancellation. *)
Definition table_step (db db' : Store) : Prop :=
  (payments db' = payments db /\ next_payment_id db' = next_payment_id db)
  \/ (exists env req,
        charge_is_valid req = true
        /\ reference_taken (env_reference env) (payments db) = false
        /\ payments db' = charged_row env req db :: payments db
        /\ next_payment_id db' = next_payment_id db + 1)
  \/ (exists pid p amt,
        get_payment pid (payments db) = Some p
        /\ status p = SUCCESS
        /\ 0 < amt <= amount p - refunded_amount p
        /\ payments db' = save_row (apply_refund amt p) (payments db)
        /\ next_payment_id db' = next_payment_id db)
  \/ (exists o,
        payments db' = map (refund_if_successful o) (payments db)
        /\ next_payment_id db' = next_payment_id db).

(** A row went from SUCCESS to a refunded status, with nothing but status
    and [refunded_amount] changed. *)
Definition refund_transition (p p' : Payment) : Prop :=
  status p = SUCCESS
  /\ (status p' = PARTIAL_REFUND \/ status p' = REFUNDED)
  /\ p' = set_status (status p') (set_refunded_amount (refunded_amount p') p)
  /\ refunded_amount p < refunded_amount p' <= amount p.

(** What is stored about a payment besides its refund accounting. *)
Definition row_sound (p : Payment) : Prop :=
  status p <> PENDING
  /\ method p ∈ PAYMENT_METHODS
  /\ 1 <= amount p <= MAX_DECIMAL
  /\ 1 <= order_id p
  /\ 1 <= payment_id p
  /\ (status p = FAILED <-> failure_reason p <> None)
  /\ gateway_response p <> None.

Definition store_sound (db : Store) : Prop :=
  Forall row_sound (payments db)
  /\ Forall (fun p => payment_id p < next_payment_id db) (payments db)
  /\ NoDup (map payment_id (payments db))
  /\ NoDup (map reference (payments db)).

(** Every ledger record is linked to a stored payment. *)
Definition ledger_linked (db : Store) : Prop :=
  forall k row, idempotency_keys db !! k = Some row ->
    exists pid, payment row = Some pid /\ In pid (map payment_id (payments db)).

(** The message that [publish_payment_event] builds. *)
Definition message_of (ty : string) (d : EventData) : Message :=
  {| event_type := ty;
     timestamp := match dict_get "timestamp" d with
                  | Some (JStr s) => s
                  | _ => ""
                  end;
     data := d |}.

(** The operation is a charge request. *)
Definition is_charge (op : Op) : bool :=
  match op with Charge _ _ => true | _ => false end.

(** The events named in the docstring of [publish_payment_event]. *)
Definition EVENT_TYPES : list string :=
  ["payment.succeeded"; "payment.failed"; "payment.refunded"].

(** What went to the exchange was published by a call, and the calls are
    for the three event types. *)
Definition effects_sound (e : Effects) : Prop :=
  Forall (fun m => In (event_type m, data m) (publish_calls e)) (delivered e)
  /\ (length (delivered e) <= length (publish_calls e))%nat
  /\ Forall (fun c => In (fst c) EVENT_TYPES) (publish_calls e).

(** The answers of [get_payment(request, payment_id)]. *)
Inductive GetResponse :=
| PaymentFound (v : PaymentView)            (* 200 *)
| PaymentNotFound.                          (* 404 not_found *)

(** The view [get_payment(request, payment_id)] of [views.py] (the name
    [get_payment] is taken by the query it makes). *)
Definition get_payment_view (db : Store) (pid : Z) : GetResponse :=
  match get_payment pid (payments db) with
  | Some p => PaymentFound (PaymentSerializer p)
  | None => PaymentNotFound
  end.

(* ===================================================================== *)
(** ** payments/events.py: the consumer *)
(* ===================================================================== *)

#[local] Set Warnings "-register-all".

(** A value as [json.loads] returns it; the fields of an object are the
    entries of the dict, no key twice.  Numbers are the integers. *)
Inductive Json :=
| JsNull
| JsBool (b : bool)
| JsNum (n : Z)
| JsStr (s : string)
| JsArr (items : list Json)
| JsObj (fields : list (string * Json)).

(** [d.get(k)] on a dict *)
Fixpoint obj_get (k : string) (fields : list (string * Json)) : option Json :=
  match fields with
  | [] => None
  | (k', v) :: rest => if decide (k' = k) then Some v else obj_get k rest
  end.

(** The truth value of a Python object, as [if not order_id] takes it. *)
Definition truthy (v : Json) : bool :=
  match v with
  | JsNull => false
  | JsBool b => b
  | JsNum n => negb (n =? 0)
  | JsStr s => negb (bool_decide (s = ""))
  | JsArr items => match items with [] => false | _ => true end
  | JsObj fields => match fields with [] => false | _ => true end
  end.

(** The order id that the query of [handle_order_cancellation] runs with,
    for the value of [data.get('order_id')]: [None] when the handler does
    nothing, because the key is missing, the value is falsy, or the value
    cannot be used as an integer ([filter] raises inside the [try]).
    [int_of_string] is Python's [int] on a string. *)
Definition order_id_argument (int_of_string : string -> option Z)
    (v : option Json) : option Z :=
  match v with
  | None => None
  | Some v =>
      if negb (truthy v) then None
      else match v with
           | JsNum n => Some n
           | JsBool _ => Some 1
           | JsStr s => int_of_string s
           | _ => None
           end
  end.

(** [ch.basic_ack] or [ch.basic_nack(requeue=False)] *)
Inductive Acknowledgement := Ack | Nack.

(** [callback(ch, method, properties, body)] of [consume_order_events];
    [body] is what [json.loads(body)] returns, [None] when it raises. *)
Definition callback (int_of_string : string -> option Z) (brokers : Z -> Broker)
    (db : Store) (body : option Json) : Store * Effects * Acknowledgement :=
  match body with
  | Some (JsObj message) =>
      let data := default (JsObj []) (obj_get "data" message) in
      match obj_get "event_type" message with
      | Some (JsStr event_type) =>
          if decide (event_type = "order.cancelled") then
            match data with
            | JsObj fields =>
                let '(db', e) :=
                  handle_order_cancellation brokers db
                    (order_id_argument int_of_string (obj_get "order_id" fields)) in
                (db', e, Ack)
            | _ => (db, no_effects, Nack)      (* [data.get] raises *)
            end
          else (db, no_effects, Ack)
      | _ => (db, no_effects, Ack)
      end
  | _ => (db, no_effects, Nack)                (* [json.loads] or [message.get] raises *)
  end.

(* ===================================================================== *)
(** ** payments/views.py: [list_payments] *)
(* ===================================================================== *)

(** The page is cut as [rest_framework.pagination.PageNumberPagination] and
    [django.core.paginator.Paginator] cut it, with the three settings of
    [PaymentPagination].  The [exact] lookups compare as the strings are. *)

(** [PaymentListSerializer(payment).data], without [created_at] *)
Record PaymentListView := mkListView {
  l_payment_id : Z;
  l_order_id : Z;
  l_amount : Z;
  l_method : string;
  l_status : PaymentStatus;
  l_reference : string
}.

Definition PaymentListSerializer (p : Payment) : PaymentListView :=
  {| l_payment_id := payment_id p; l_order_id := order_id p; l_amount := amount p;
     l_method := method p; l_status := status p; l_reference := reference p |}.

(** The value stored in the [status] column. *)
Definition status_name (s : PaymentStatus) : string :=
  match s with
  | PENDING => "PENDING"
  | SUCCESS => "SUCCESS"
  | FAILED => "FAILED"
  | REFUNDED => "REFUNDED"
  | PARTIAL_REFUND => "PARTIAL_REFUND"
  end.

(** [request.query_params] of [list_payments]: what [.get] returns for each
    of the five parameters that are read. *)
Record ListQuery := mkListQuery {
  q_order_id : option string;
  q_status : option string;
  q_method : option string;
  q_page : option string;
  q_page_size : option string
}.

(** The parameter when it is there and not empty ([if order_id:]). *)
Definition given (param : option string) : option string :=
  match param with
  | Some s => if bool_decide (s = "") then None else Some s
  | None => None
  end.

(** The three filters of [list_payments]; [None] when
    [filter(order_id=...)] raises because the text is no integer.
    [int_of_string] is Python's [int] on a string. *)
Definition filter_queryset (int_of_string : string -> option Z) (q : ListQuery)
    (ps : list Payment) : option (list Payment) :=
  match
    match given (q_order_id q) with
    | Some s =>
        match int_of_string s with
        | Some n => Some (filter (fun p => order_id p = n) ps)
        | None => None
        end
    | None => Some ps
    end
  with
  | None => None
  | Some qs1 =>
      let qs2 := match given (q_status q) with
                 | Some s => filter (fun p => status_name (status p) = s) qs1
                 | None => qs1
                 end in
      let qs3 := match given (q_method q) with
                 | Some s => filter (fun p => method p = s) qs2
                 | None => qs2
                 end in
      Some qs3
  end.

(** [PaymentPagination] *)
Definition page_size : nat := 20.
Definition max_page_size : nat := 100.

(** [PageNumberPagination.get_page_size] with [page_size_query_param =
    'page_size']: the parameter when it is a positive integer, cut off at
    [max_page_size]; else [page_size]. *)
Definition get_page_size (int_of_string : string -> option Z) (q : ListQuery) : nat :=
  match q_page_size q with
  | Some s =>
      match int_of_string s with
      | Some n => if n <=? 0 then page_size else Nat.min (Z.to_nat n) max_page_size
      | None => page_size
      end
  | None => page_size
  end.

(** [Paginator.num_pages], with no orphans and an empty first page
    allowed *)
Definition num_pages (count per_page : nat) : nat :=
  let hits := Nat.max 1 count in
  (hits + per_page - 1) / per_page.

(** [get_page_number] followed by [Paginator.validate_number]: the page, or
    [None] for the 404 of an invalid page. *)
Definition get_page_number (int_of_string : string -> option Z) (q : ListQuery)
    (pages : nat) : option nat :=
  match given (q_page q) with
  | None => Some 1%nat
  | Some s =>
      if bool_decide (s = "last") then Some pages
      else match int_of_string s with
           | Some n =>
               if (n <? 1) || (Z.of_nat pages <? n) then None else Some (Z.to_nat n)
           | None => None
           end
  end.

(** [object_list[bottom:top]] of [Paginator.page] *)
Definition page_slice {A} (number per_page : nat) (l : list A) : list A :=
  take per_page (drop ((number - 1) * per_page) l).

(** The answers of [list_payments]: the paginated response with its
    [count], whether it has a [previous] and a [next] link, and its
    [results]. *)
Inductive ListResponse :=
| PageOf (count : nat) (previous next : bool) (results : list PaymentListView) (* 200 *)
| InvalidPage                                                                  (* 404 *)
| ListError.                                                                   (* 500 *)

(** [list_payments(request)] *)
Definition list_payments (int_of_string : string -> option Z) (db : Store)
    (q : ListQuery) : ListResponse :=
  match filter_queryset int_of_string q (payments db) with
  | None => ListError
  | Some queryset =>
      let per_page := get_page_size int_of_string q in
      let pages := num_pages (length queryset) per_page in
      match get_page_number int_of_string q pages with
      | None => InvalidPage
      | Some number =>
          PageOf (length queryset) (1 <? number)%nat (number <? pages)%nat
            (map PaymentListSerializer (page_slice number per_page queryset))
      end
  end.

(** A payment passes the filters of a query. *)
Definition matches (int_of_string : string -> option Z) (q : ListQuery)
    (p : Payment) : Prop :=
  (forall s, given (q_order_id q) = Some s -> int_of_string s = Some (order_id p))
  /\ (forall s, given (q_status q) = Some s -> status_name (status p) = s)
  /\ (forall s, given (q_method q) = Some s -> method p = s).



(* ===================================================================== *)
(** ** Sample requests and stores *)
(* ===================================================================== *)

(** A charge of 100.00 and one of 50.00, both for order 7. *)
Definition sample_charge : ChargeRequest :=
  {| c_order_id := 7; c_amount := 10000; c_method := "CARD";
     c_idempotency_key := "charge-key-0001" |}.

Definition sample_charge_50 : ChargeRequest :=
  {| c_order_id := 7; c_amount := 5000; c_method := "UPI";
     c_idempotency_key := "charge-key-0002" |}.

Definition gateway_accepts : ChargeEnv :=
  {| env_reference := "ECI20240101-A1B2C3"; env_gateway := GwSuccess 123456;
     env_broker := broker_up |}.

Definition gateway_declines : ChargeEnv :=
  {| env_reference := "ECI20240101-D4E5F6";
     env_gateway := GwDeclined (Some "Card declined");
     env_broker := broker_up |}.

Definition refund_of (a : Z) (k : string) : RefundRequest :=
  {| r_amount := Some a; r_reason := None; r_idempotency_key := k |}.

(** The store after [sample_charge] went through, and after a refund of [a]
    cents on that payment. *)
Definition after_charge : Store :=
  store (run [Charge gateway_accepts sample_charge] initial_world).

Definition after_refund_of (a : Z) : Store :=
  store_after (refund_payment broker_up after_charge 1 (refund_of a "refund-0001")).

(** The row of [after_charge], and the row of [after_refund_of 4000]. *)
Definition unrefunded_row : Payment :=
  {| payment_id := 1; order_id := 7; amount := 10000; method := "CARD";
     status := SUCCESS; reference := "ECI20240101-A1B2C3";
     refunded_amount := 0;
     gateway_response := Some (GwSuccess 123456);
     failure_reason := None |}.


(** [after_charge] with a refund record left in PROCESSING, as a request
    that is still running leaves it. *)
Definition stuck_refund_record : IdempotencyKey :=
  {| payment := Some 1; request_data := RefundData (refund_of 3000 "refund-0001");
     response_data := None; idem_status := Idem.PROCESSING |}.

Definition with_stuck_refund : Store :=
  save_idempotency_key (refund_key 1 "refund-0001") stuck_refund_record after_charge.

(** The store after [sample_charge] was declined, and its ledger record. *)
Definition after_declined_charge : Store :=
  store (run [Charge gateway_declines sample_charge] initial_world).

Definition declined_record : IdempotencyKey :=
  {| payment := Some 1; request_data := ChargeData sample_charge;
     response_data := Some (ErrorData (Some "Card declined"));
     idem_status := Idem.FAILED |}.

(** A charge whose idempotency key reads like the refund key of payment 1. *)
Definition shadowing_charge : ChargeRequest :=
  {| c_order_id := 7; c_amount := 10000; c_method := "CARD";
     c_idempotency_key := refund_key 1 "refund-0001" |}.

Definition blocked_charge : ChargeRequest :=
  {| c_order_id := 9; c_amount := 2500; c_method := "UPI";
     c_idempotency_key := refund_key 1 "refund-0001" |}.

(** An [order.cancelled] message for an order id. *)
Definition cancellation_body (order_id : Json) : option Json :=
  Some (JsObj [("event_type", JsStr "order.cancelled");
               ("data", JsObj [("order_id", order_id)])]).

(** A reader of the numerals used below, and a query. *)
Definition read_small_number (s : string) : option Z :=
  if bool_decide (s = "1") then Some 1
  else if bool_decide (s = "2") then Some 2
  else if bool_decide (s = "7") then Some 7
  else None.

Definition successful_of_order_7 : ListQuery :=
  {| q_order_id := Some "7"; q_status := Some "SUCCESS"; q_method := Some "";
     q_page := None; q_page_size := Some "500" |}.

Ltac case_publish :=
  match goal with
  | |- context [publish_payment_event ?b ?ty ?d] =>
      destruct (publish_payment_event b ty d) as [[?|] ?]
  end.

(* ===================================================================== *)
(** ** Rows and primary keys *)
(* ===================================================================== *)

Lemma get_payment_id pid ps p :
  get_payment pid ps = Some p -> payment_id p = pid.
Proof.
  induction ps as [|q ps IH]; simpl; [discriminate|].
  destruct (decide (payment_id q = pid)); [|exact IH].
  intros [= <-]. assumption.
Qed.

Lemma get_payment_In pid ps p :
  get_payment pid ps = Some p -> In p ps.
Proof.
  induction ps as [|q ps IH]; simpl; [discriminate|].
  destruct (decide (payment_id q = pid)).
  - intros [= <-]. now left.
  - intros H. right. auto.
Qed.

Lemma save_row_ids p ps :
  map payment_id (save_row p ps) = map payment_id ps.
Proof.
  induction ps as [|q ps IH]; simpl; [reflexivity|].
  destruct (decide (payment_id q = payment_id p)) as [e|]; simpl;
    rewrite IH; congruence.
Qed.

Lemma save_row_map p ps :
  save_row p ps =
  map (fun q => if decide (payment_id q = payment_id p) then p else q) ps.
Proof.
  induction ps as [|q ps IH]; simpl; [reflexivity|].
  rewrite IH. destruct (decide (payment_id q = payment_id p)); reflexivity.
Qed.

Lemma get_payment_save_row_eq pid p q ps :
  get_payment pid ps = Some q -> payment_id p = pid ->
  get_payment pid (save_row p ps) = Some p.
Proof.
  intros Hget Hid. induction ps as [|x ps IH]; simpl in *; [discriminate|].
  destruct (decide (payment_id x = pid)) as [e|ne].
  - destruct (decide (payment_id x = payment_id p)) as [|ne']; [|congruence].
    simpl. destruct (decide (payment_id p = pid)); congruence.
  - destruct (decide (payment_id x = payment_id p)); [congruence|].
    simpl. destruct (decide (payment_id x = pid)); [congruence|]. auto.
Qed.

Lemma get_payment_save_row_ne pid p ps :
  payment_id p <> pid ->
  get_payment pid (save_row p ps) = get_payment pid ps.
Proof.
  intros Hne. induction ps as [|x ps IH]; simpl; [reflexivity|].
  destruct (decide (payment_id x = payment_id p)) as [e|ne]; simpl.
  - destruct (decide (payment_id p = pid)); [congruence|].
    destruct (decide (payment_id x = pid)); [congruence|]. exact IH.
  - destruct (decide (payment_id x = pid)); [reflexivity|]. exact IH.
Qed.

Lemma get_payment_fresh pid ps :
  Forall (fun p => payment_id p < pid) ps -> get_payment pid ps = None.
Proof.
  induction 1 as [|q ps Hq _ IH]; simpl; [reflexivity|].
  destruct (decide (payment_id q = pid)); [lia|exact IH].
Qed.

Lemma Forall_save_row (P : Payment -> Prop) p ps :
  P p -> Forall P ps -> Forall P (save_row p ps).
Proof.
  intros Hp. induction 1 as [|q ps Hq _ IH]; simpl; [constructor|].
  destruct (decide (payment_id q = payment_id p)); constructor; assumption.
Qed.

Lemma row_ok_mono next next' p :
  next <= next' -> row_ok next p -> row_ok next' p.
Proof. unfold row_ok. intuition lia. Qed.

(* ===================================================================== *)
(** ** The store invariant and the growth of refunds *)
(* ===================================================================== *)

Lemma refunds_grow_refl ps : refunds_grow ps ps.
Proof. intros pid p H. exists p. split; [assumption|lia]. Qed.

Lemma refunds_grow_trans ps1 ps2 ps3 :
  refunds_grow ps1 ps2 -> refunds_grow ps2 ps3 -> refunds_grow ps1 ps3.
Proof.
  intros H12 H23 pid p H.
  destruct (H12 _ _ H) as (p2 & H2 & Hle2).
  destruct (H23 _ _ H2) as (p3 & H3 & Hle3).
  exists p3. split; [assumption|lia].
Qed.

Lemma refunds_grow_save p q ps :
  get_payment (payment_id p) ps = Some q ->
  refunded_amount q <= refunded_amount p ->
  refunds_grow ps (save_row p ps).
Proof.
  intros Hq Hle pid x Hx.
  destruct (decide (payment_id p = pid)) as [e|ne].
  - subst pid. exists p. split.
    + eapply get_payment_save_row_eq; eauto.
    + congruence.
  - exists x. rewrite get_payment_save_row_ne by assumption. split; [assumption|lia].
Qed.

Lemma refunds_grow_cons p ps :
  get_payment (payment_id p) ps = None -> refunds_grow ps (p :: ps).
Proof.
  intros Hnone pid x Hx. exists x. split; [|lia]. simpl.
  destruct (decide (payment_id p = pid)) as [e|]; [|assumption].
  subst pid. congruence.
Qed.

Lemma store_ok_fresh db :
  store_ok db -> get_payment (next_payment_id db) (payments db) = None.
Proof.
  intros [Hrows _]. apply get_payment_fresh.
  eapply Forall_impl; [exact Hrows|]. unfold row_ok. intuition.
Qed.

Lemma store_ok_row pid p db :
  store_ok db -> get_payment pid (payments db) = Some p ->
  row_ok (next_payment_id db) p.
Proof.
  intros [Hrows _] Hp. apply get_payment_In in Hp.
  rewrite Forall_forall in Hrows. apply Hrows. now apply list_elem_of_In.
Qed.

(** A successful payment that satisfies the invariant has nothing refunded. *)
Lemma success_unrefunded p :
  payment_ok p -> status p = SUCCESS -> refunded_amount p = 0.
Proof.
  intros (Hrange & Hfull & Hpart) Hs.
  destruct (decide (refunded_amount p = amount p)) as [e|ne].
  - apply Hfull in e. congruence.
  - destruct (decide (refunded_amount p = 0)) as [|nz]; [assumption|].
    assert (status p = PARTIAL_REFUND) by (apply Hpart; lia). congruence.
Qed.

(* ===================================================================== *)
(** ** [charge_payment] keeps the invariant *)
(* ===================================================================== *)

Lemma save_row_fresh p ps :
  Forall (fun q => payment_id q < payment_id p) ps -> save_row p ps = ps.
Proof.
  induction 1 as [|q ps Hq _ IH]; simpl; [reflexivity|].
  destruct (decide (payment_id q = payment_id p)); [lia|]. now rewrite IH.
Qed.

Lemma store_ok_ids db :
  store_ok db -> Forall (fun q => payment_id q < next_payment_id db) (payments db).
Proof.
  intros [Hrows _]. eapply Forall_impl; [exact Hrows|].
  unfold row_ok. intuition.
Qed.

Lemma charge_proceed_commit env req k idem db db' resp e :
  store_ok db ->
  charge_proceed env req k idem db = Commit db' resp e ->
  payments db' = charged_row env req db :: payments db
  /\ next_payment_id db' = next_payment_id db + 1
  /\ gateway_calls e = [next_payment_id db].
Proof.
  intros Hdb. unfold charge_proceed, create_payment, charged_row.
  destruct (reference_taken _ _); [discriminate|].
  pose proof (store_ok_ids _ Hdb) as Hids.
  destruct (env_gateway env) as [txn|why]; case_publish; try discriminate;
    intros [= <- <- <-]; simpl;
    (rewrite decide_True by reflexivity);
    (rewrite save_row_fresh by exact Hids); auto.
Qed.

Lemma charged_row_ok env req db :
  charge_is_valid req = true ->
  row_ok (next_payment_id db + 1) (charged_row env req db).
Proof.
  intros Hvalid. unfold charge_is_valid in Hvalid.
  repeat (apply andb_prop in Hvalid; destruct Hvalid as [Hvalid ?]).
  unfold row_ok, payment_ok, charged_row.
  destruct (env_gateway env); simpl; repeat split; try lia; try discriminate.
Qed.

Lemma charge_proceed_ok env req k idem db :
  charge_is_valid req = true -> store_ok db ->
  match charge_proceed env req k idem db with
  | Commit db' _ _ =>
      store_ok db' /\ refunds_grow (payments db) (payments db')
  | Abort _ => True
  end.
Proof.
  intros Hvalid Hdb.
  destruct (charge_proceed env req k idem db) as [db' resp e|e] eqn:E; [|exact I].
  destruct (charge_proceed_commit _ _ _ _ _ _ _ _ Hdb E) as (Hps & Hnext & _).
  assert (Hid : payment_id (charged_row env req db) = next_payment_id db)
    by (unfold charged_row; destruct (env_gateway env); reflexivity).
  split.
  - destruct Hdb as [Hrows Hnd]. split; rewrite Hps, ?Hnext.
    + constructor; [now apply charged_row_ok|].
      eapply Forall_impl; [exact Hrows|]. intros p. apply row_ok_mono. lia.
    + simpl. constructor; [|assumption].
      rewrite Hid. intros Hin. apply list_elem_of_In, in_map_iff in Hin.
      destruct Hin as (q & Hq & Hin). rewrite Forall_forall in Hrows.
      apply list_elem_of_In, Hrows in Hin. unfold row_ok in Hin. lia.
  - rewrite Hps. apply refunds_grow_cons. rewrite Hid.
    now apply store_ok_fresh.
Qed.

Lemma charge_payment_ok env db req :
  store_ok db ->
  store_ok (store_after (charge_payment env db req))
  /\ refunds_grow (payments db) (payments (store_after (charge_payment env db req))).
Proof.
  intros Hdb. unfold charge_payment.
  destruct (charge_is_valid req) eqn:Hvalid; simpl;
    [|split; [assumption|apply refunds_grow_refl]].
  unfold charge_transaction, get_or_create.
  destruct (idempotency_keys db !! c_idempotency_key req) as [row|] eqn:Hrow.
  - destruct (idem_status row), (payment row) as [pid|];
      try (simpl; split; [assumption|apply refunds_grow_refl]).
    all: try (pose proof (charge_proceed_ok env req (c_idempotency_key req) row db Hvalid Hdb) as H;
      destruct (charge_proceed _ _ _ _ _); simpl; [exact H|split; [assumption|apply refunds_grow_refl]]).
    destruct (get_payment pid (payments db)); simpl; split; try assumption; apply refunds_grow_refl.
  - match goal with |- context [charge_proceed ?a ?b ?c ?d ?s] =>
      pose proof (charge_proceed_ok a b c d s Hvalid Hdb) as H;
      destruct (charge_proceed a b c d s) end; simpl;
      [exact H|split; [assumption|apply refunds_grow_refl]].
Qed.

(* ===================================================================== *)
(** ** [refund_payment]: the outcomes of the block *)
(* ===================================================================== *)

Lemma apply_refund_fields amt p :
  payment_id (apply_refund amt p) = payment_id p
  /\ order_id (apply_refund amt p) = order_id p
  /\ amount (apply_refund amt p) = amount p
  /\ refunded_amount (apply_refund amt p) = refunded_amount p + amt.
Proof. unfold apply_refund. simpl. destruct (_ <=? _); simpl; auto. Qed.

Lemma apply_refund_status amt p :
  status (apply_refund amt p) =
  if amount p <=? refunded_amount p + amt then REFUNDED else PARTIAL_REFUND.
Proof. unfold apply_refund. simpl. destruct (_ <=? _); reflexivity. Qed.

Lemma refund_amount_positive req p :
  refund_is_valid req = true -> 0 < amount p - refunded_amount p ->
  0 < default (amount p - refunded_amount p) (r_amount req).
Proof.
  unfold refund_is_valid, refund_amount_is_valid. intros Hvalid Hrem.
  destruct (r_amount req) as [a|]; simpl; [|assumption].
  apply andb_prop in Hvalid as [Hvalid _]. apply andb_prop in Hvalid as [Hvalid _].
  apply andb_prop in Hvalid as [_ Hpos]. lia.
Qed.

Lemma apply_refund_ok amt p :
  payment_ok p -> status p = SUCCESS ->
  0 < amt <= amount p - refunded_amount p ->
  payment_ok (apply_refund amt p).
Proof.
  intros Hok Hs Hamt. pose proof (success_unrefunded _ Hok Hs) as Hzero.
  destruct (apply_refund_fields amt p) as (_ & _ & Ha & Hr).
  unfold payment_ok. rewrite Ha, Hr, apply_refund_status, Hzero in *.
  destruct (Z.leb_spec (amount p) (0 + amt)); repeat split; intros; try lia; try discriminate.
Qed.

(** The outcome of the block of [refund_payment] on a successful payment. *)
Lemma refund_transaction_cases b pid req p db :
  let k := refund_key pid (r_idempotency_key req) in
  let amt := default (amount p - refunded_amount p) (r_amount req) in
  let o := atomic db (refund_transaction b pid req p db) in
  (response o = RefundReplayed (PaymentSerializer p) /\ store_after o = db
     /\ effects o = no_effects /\ ~ not_completed k db)
  \/ (response o = InvalidAmount (amount p - refunded_amount p)
     /\ payments (store_after o) = payments db
     /\ next_payment_id (store_after o) = next_payment_id db
     /\ effects o = no_effects /\ not_completed k db
     /\ amount p - refunded_amount p < amt)
  \/ (response o = ProcessingError /\ store_after o = db
     /\ not_completed k db /\ amt <= amount p - refunded_amount p
     /\ publish_returns b = false)
  \/ (response o = RefundProcessed amt (PaymentSerializer (apply_refund amt p))
     /\ payments (store_after o) = save_row (apply_refund amt p) (payments db)
     /\ next_payment_id (store_after o) = next_payment_id db
     /\ (exists row, idempotency_keys (store_after o) !! k = Some row
                     /\ idem_status row = Idem.COMPLETED)
     /\ gateway_calls (effects o) = []
     /\ not_completed k db /\ amt <= amount p - refunded_amount p
     /\ publish_returns b = true).
Proof.
  intros k amt o. subst o. unfold refund_transaction, get_or_create. fold k. fold amt.
  assert (Hpub : forall ty d,
            match fst (publish_payment_event b ty d) with
            | Raised => publish_returns b = false
            | Returned _ => publish_returns b = true
            end).
  { intros ty d. unfold publish_payment_event, publish_returns.
    destruct b as [[] [] [] [] [] []]; reflexivity. }
  destruct (idempotency_keys db !! k) as [row|] eqn:Hrow; simpl negb; simpl andb.
  - destruct (bool_decide (idem_status row = Idem.COMPLETED)) eqn:Hst.
    + left. apply bool_decide_eq_true in Hst. simpl. repeat split.
      intros Hnc. exact (Hnc _ Hrow Hst).
    + apply bool_decide_eq_false in Hst.
      assert (Hnc : not_completed k db) by (intros r Hr; congruence).
      right. destruct (Z.ltb_spec (amount p - refunded_amount p) amt).
      * left. simpl. repeat split; auto.
      * right.
        match goal with |- context [publish_payment_event ?b ?ty ?d] =>
          specialize (Hpub ty d);
          destruct (publish_payment_event b ty d) as [[?|] ?] end; simpl in *.
        -- right. repeat split; auto. eexists. rewrite lookup_insert_eq. split; reflexivity.
        -- left. auto.
  - assert (Hnc : not_completed k db) by (intros r Hr; congruence).
    right. destruct (Z.ltb_spec (amount p - refunded_amount p) amt).
    + left. simpl. repeat split; auto.
    + right.
      match goal with |- context [publish_payment_event ?b ?ty ?d] =>
        specialize (Hpub ty d);
        destruct (publish_payment_event b ty d) as [[?|] ?] end; simpl in *.
      * right. repeat split; auto. eexists. rewrite lookup_insert_eq. split; reflexivity.
      * left. auto.
Qed.

Lemma refund_payment_ok b db pid req :
  store_ok db ->
  store_ok (store_after (refund_payment b db pid req))
  /\ refunds_grow (payments db) (payments (store_after (refund_payment b db pid req))).
Proof.
  intros Hdb. unfold refund_payment.
  destruct (refund_is_valid req) eqn:Hvalid; simpl;
    [|split; [assumption|apply refunds_grow_refl]].
  destruct (get_payment pid (payments db)) as [p|] eqn:Hp;
    [|split; [assumption|apply refunds_grow_refl]].
  destruct (bool_decide (status p = SUCCESS)) eqn:Hs; simpl;
    [|split; [assumption|apply refunds_grow_refl]].
  apply bool_decide_eq_true in Hs.
  pose proof (store_ok_row _ _ _ Hdb Hp) as (Hok & Hamt & Hord & Hid).
  pose proof (success_unrefunded _ Hok Hs) as Hzero.
  pose proof (get_payment_id _ _ _ Hp) as Hpid.
  destruct (refund_transaction_cases b pid req p db)
    as [(_ & -> & _)|[(_ & Hps & Hnext & _)|[(_ & -> & _)|(_ & Hps & Hnext & _ & _ & _ & Hle & _)]]].
  - split; [assumption|apply refunds_grow_refl].
  - unfold store_ok. rewrite Hps, Hnext.
    split; [assumption|apply refunds_grow_refl].
  - split; [assumption|apply refunds_grow_refl].
  - set (amt := default (amount p - refunded_amount p) (r_amount req)) in *.
    assert (Hpos : 0 < amt) by (apply refund_amount_positive; [assumption|lia]).
    destruct (apply_refund_fields amt p) as (Hi & Ho & Ha & Hr).
    split.
    + destruct Hdb as [Hrows Hnd]. unfold store_ok. rewrite Hps, Hnext. split.
      * apply Forall_save_row; [|assumption].
        unfold row_ok. split; [apply apply_refund_ok; auto; lia|].
        rewrite Hi, Ho, Ha. lia.
      * rewrite save_row_ids. assumption.
    + rewrite Hps. eapply refunds_grow_save; [rewrite Hi, Hpid; eassumption|lia].
Qed.

(* ===================================================================== *)
(** ** [publish_payment_event] and the cancellation loop *)
(* ===================================================================== *)

Lemma publish_returns_spec b ty d :
  publish_returns b = true ->
  exists r, publish_payment_event b ty d =
    (Returned r,
     if delivers b
     then [{| event_type := ty;
              timestamp := match dict_get "timestamp" d with
                           | Some (JStr s) => s
                           | _ => ""
                           end;
              data := d |}]
     else []).
Proof.
  unfold publish_returns, publish_payment_event, delivers.
  destruct b as [[] [] [] [] [] []]; simpl; intros H; try discriminate H;
    eexists; reflexivity.
Qed.

Lemma publish_raises_spec b ty d :
  publish_returns b = false ->
  fst (publish_payment_event b ty d) = Raised.
Proof.
  unfold publish_returns, publish_payment_event.
  destruct b as [[] [] [] [] [] []]; simpl; intros H; try discriminate H; reflexivity.
Qed.

Lemma with_payments_same db : with_payments (payments db) db = db.
Proof. destruct db; reflexivity. Qed.

Lemma get_payment_absent pid ps :
  ~ In pid (map payment_id ps) -> get_payment pid ps = None.
Proof.
  induction ps as [|q ps IH]; simpl; [reflexivity|]. intros Hnot.
  destruct (decide (payment_id q = pid)); [tauto|]. apply IH. tauto.
Qed.

Lemma cancellation_loop_spec brokers todo :
  NoDup (map payment_id todo) ->
  forall db e,
    match cancellation_loop brokers todo db e with
    | Commit db' _ e' =>
        db' = with_payments (map (cancel_row todo) (payments db)) db
        /\ gateway_calls e' = gateway_calls e
        /\ publish_calls e' =
             publish_calls e ++
             map cancellation_call (filter (fun p => refunded_amount p < amount p) todo)
        /\ ((forall p, In p todo -> delivers (brokers (payment_id p)) = true) ->
            delivered e' =
              delivered e ++
              map cancellation_message
                (filter (fun p => refunded_amount p < amount p) todo))
    | Abort _ =>
        exists p, In p todo /\ publish_returns (brokers (payment_id p)) = false
    end.
Proof.
  induction todo as [|p rest IH]; intros Hnd db e.
  - simpl. rewrite !app_nil_r. repeat split; auto.
    rewrite <- (with_payments_same db) at 1. f_equal.
    unfold cancel_row. simpl. symmetry. apply map_id.
  - apply NoDup_cons in Hnd as [Hfresh Hnd].
    assert (Hnone : get_payment (payment_id p) rest = None).
    { apply get_payment_absent. intros Hin. apply Hfresh. now apply list_elem_of_In. }
    simpl cancellation_loop. rewrite filter_cons.
    destruct (Z.ltb_spec (refunded_amount p) (amount p)) as [Hlt|Hge].
    + rewrite decide_True by assumption.
      simpl payment_id.
      change (cancellation_event (set_status REFUNDED _) ?a) with (cancellation_event p a).
      destruct (publish_returns (brokers (payment_id p))) eqn:Hret.
      * destruct (publish_returns_spec (brokers (payment_id p)) "payment.refunded"
                    (cancellation_event p (amount p - refunded_amount p)) Hret)
          as (r & ->).
        match goal with
        | |- context [cancellation_loop brokers rest ?d ?x] =>
            specialize (IH Hnd d x); destruct (cancellation_loop brokers rest d x)
              as [db' [] e'|e']
        end.
        -- destruct IH as (-> & Hgw & Hcalls & Hdel). split; [|split; [|split]].
           ++ unfold with_payments. simpl. f_equal.
              rewrite save_row_map, map_map. apply map_ext. intros q. simpl.
              unfold cancel_row at 2. simpl.
              destruct (decide (payment_id q = payment_id p)) as [e0|ne].
              ** rewrite decide_True by congruence.
                 unfold cancel_row. simpl. rewrite Hnone.
                 destruct (Z.ltb_spec (refunded_amount p) (amount p)); [|lia].
                 unfold fully_refunded. do 2 f_equal. lia.
              ** rewrite decide_False by congruence. reflexivity.
           ++ rewrite Hgw. simpl. apply app_nil_r.
           ++ rewrite Hcalls. simpl. rewrite <- app_assoc. reflexivity.
           ++ intros Hall. rewrite Hdel by (intros q Hq; apply Hall; now right).
              simpl. rewrite (Hall p (or_introl eq_refl)). rewrite <- app_assoc.
              reflexivity.
        -- destruct IH as (q & Hq & Hfalse). exists q. split; [now right|assumption].
      * pose proof (publish_raises_spec (brokers (payment_id p)) "payment.refunded"
                      (cancellation_event p (amount p - refunded_amount p)) Hret) as Hr.
        destruct (publish_payment_event _ _ _) as [res sent]. simpl in Hr. subst res.
        exists p. split; [now left|assumption].
    + rewrite decide_False by lia.
      specialize (IH Hnd db e).
      destruct (cancellation_loop brokers rest db e) as [db' [] e'|e'].
      * destruct IH as (-> & Hgw & Hcalls & Hdel). split; [|split; [|split]]; auto.
        -- f_equal. apply map_ext. intros q. unfold cancel_row. simpl.
           destruct (decide (payment_id p = payment_id q)) as [e0|ne]; [|reflexivity].
           rewrite <- e0, Hnone.
           destruct (Z.ltb_spec (refunded_amount p) (amount p)); [lia|reflexivity].
        -- intros Hall. apply Hdel. intros q Hq. apply Hall. now right.
      * destruct IH as (q & Hq & Hfalse). exists q. split; [now right|assumption].
Qed.

Lemma filter_ids_incl (P : Payment -> Prop) `{!forall x, Decision (P x)} pid ps :
  In pid (map payment_id (filter P ps)) -> In pid (map payment_id ps).
Proof.
  rewrite !in_map_iff. intros (q & Hid & Hin). exists q. split; [assumption|].
  apply list_elem_of_In. apply list_elem_of_In, list_elem_of_filter in Hin. tauto.
Qed.

Lemma NoDup_filter_ids (P : Payment -> Prop) `{!forall x, Decision (P x)} ps :
  NoDup (map payment_id ps) -> NoDup (map payment_id (filter P ps)).
Proof.
  induction ps as [|x ps IH]; simpl; [auto|]. intros Hnd.
  apply NoDup_cons in Hnd as [Hfresh Hnd]. rewrite filter_cons.
  destruct (decide (P x)); [|auto]. simpl. apply NoDup_cons. split; [|auto].
  intros Hin. apply Hfresh. apply list_elem_of_In. apply list_elem_of_In in Hin.
  eapply filter_ids_incl; eassumption.
Qed.

Lemma get_payment_filter (P : Payment -> Prop) `{!forall x, Decision (P x)} q ps :
  NoDup (map payment_id ps) -> In q ps ->
  get_payment (payment_id q) (filter P ps) = if decide (P q) then Some q else None.
Proof.
  induction ps as [|x ps IH]; simpl; [tauto|]. intros Hnd Hin.
  apply NoDup_cons in Hnd as [Hfresh Hnd]. rewrite filter_cons.
  assert (Hx : get_payment (payment_id x) (filter P ps) = None).
  { apply get_payment_absent. intros Hmem. apply Hfresh, list_elem_of_In.
    eapply filter_ids_incl; eassumption. }
  destruct Hin as [->|Hin].
  - destruct (decide (P q)); [|exact Hx]. simpl. now rewrite decide_True.
  - assert (Hne : payment_id x <> payment_id q).
    { intros Heq. apply Hfresh. rewrite Heq. apply list_elem_of_In, in_map. assumption. }
    destruct (decide (P x)); simpl; [rewrite decide_False by assumption|]; auto.
Qed.

Lemma successful_unrefunded next o ps :
  Forall (row_ok next) ps ->
  filter (fun p => refunded_amount p < amount p) (successful_payments_of o ps)
  = successful_payments_of o ps.
Proof.
  unfold successful_payments_of. induction 1 as [|p ps Hp _ IH]; [reflexivity|].
  rewrite filter_cons. destruct (decide (order_id p = o /\ status p = SUCCESS)) as [[_ Hs]|]; [|exact IH].
  destruct Hp as (Hok & Hamt & _). pose proof (success_unrefunded _ Hok Hs).
  rewrite filter_cons, decide_True by lia. now rewrite IH.
Qed.

Lemma cancel_row_successful next o ps :
  Forall (row_ok next) ps -> NoDup (map payment_id ps) ->
  map (cancel_row (successful_payments_of o ps)) ps = map (refund_if_successful o) ps.
Proof.
  intros Hrows Hnd. apply map_ext_in. intros q Hq.
  unfold cancel_row, successful_payments_of, refund_if_successful.
  rewrite get_payment_filter by assumption.
  destruct (decide (order_id q = o /\ status q = SUCCESS)) as [[_ Hs]|]; [|reflexivity].
  rewrite Forall_forall in Hrows. apply list_elem_of_In, Hrows in Hq.
  destruct Hq as (Hok & Hamt & _). pose proof (success_unrefunded _ Hok Hs).
  destruct (Z.ltb_spec (refunded_amount q) (amount q)); [reflexivity|lia].
Qed.

Lemma no_successful_after_cancel o ps :
  successful_payments_of o (map (refund_if_successful o) ps) = [].
Proof.
  unfold successful_payments_of. induction ps as [|p ps IH]; [reflexivity|].
  simpl map. rewrite filter_cons, IH. apply decide_False.
  unfold refund_if_successful.
  destruct (decide (order_id p = o /\ status p = SUCCESS)); [|assumption].
  simpl. intros [_ H]. discriminate H.
Qed.

Lemma no_payment_of_order_0 next ps :
  Forall (row_ok next) ps -> map (refund_if_successful 0) ps = ps
                             /\ successful_payments_of 0 ps = [].
Proof.
  unfold successful_payments_of.
  induction 1 as [|p ps Hp _ [IH1 IH2]]; [split; reflexivity|].
  destruct Hp as (_ & _ & Hord & _). simpl map. rewrite filter_cons, IH1, IH2.
  unfold refund_if_successful. rewrite !decide_False by lia. split; reflexivity.
Qed.

Lemma cancellation_on_ok_store brokers db o :
  store_ok db ->
  match cancellation_loop brokers (successful_payments_of o (payments db))
          db no_effects with
  | Commit db' _ e =>
      db' = with_payments (map (refund_if_successful o) (payments db)) db
      /\ gateway_calls e = []
      /\ publish_calls e = map cancellation_call (successful_payments_of o (payments db))
      /\ ((forall pid, delivers (brokers pid) = true) ->
          delivered e = map cancellation_message (successful_payments_of o (payments db)))
  | Abort _ => exists pid, publish_returns (brokers pid) = false
  end.
Proof.
  intros [Hrows Hnd].
  pose proof (cancellation_loop_spec brokers (successful_payments_of o (payments db))
                (NoDup_filter_ids _ _ Hnd) db no_effects) as H.
  destruct (cancellation_loop _ _ _ _) as [db' [] e|e].
  - destruct H as (-> & Hgw & Hcalls & Hdel).
    rewrite (cancel_row_successful _ _ _ Hrows Hnd).
    rewrite (successful_unrefunded _ _ _ Hrows) in Hcalls, Hdel.
    repeat split; auto.
  - destruct H as (p & _ & Hp). eauto.
Qed.

Lemma refund_if_successful_ok next o p :
  row_ok next p -> row_ok next (refund_if_successful o p)
                   /\ payment_id (refund_if_successful o p) = payment_id p
                   /\ refunded_amount p <= refunded_amount (refund_if_successful o p).
Proof.
  intros Hp. unfold refund_if_successful.
  destruct (decide (order_id p = o /\ status p = SUCCESS)) as [[_ Hs]|];
    [|split; [assumption|split; [reflexivity|lia]]].
  destruct Hp as (Hok & Hamt & Hord & Hid).
  pose proof (success_unrefunded _ Hok Hs).
  unfold row_ok, payment_ok, fully_refunded; simpl.
  repeat split; auto; try lia; discriminate.
Qed.

Lemma get_payment_map (f : Payment -> Payment) pid ps :
  (forall p, payment_id (f p) = payment_id p) ->
  get_payment pid (map f ps) = option_map f (get_payment pid ps).
Proof.
  intros Hid. induction ps as [|q ps IH]; simpl; [reflexivity|].
  rewrite Hid. destruct (decide (payment_id q = pid)); [reflexivity|exact IH].
Qed.

Lemma handle_order_cancellation_ok brokers db oid :
  store_ok db ->
  store_ok (fst (handle_order_cancellation brokers db oid))
  /\ refunds_grow (payments db)
       (payments (fst (handle_order_cancellation brokers db oid))).
Proof.
  intros Hdb. unfold handle_order_cancellation.
  destruct oid as [o|]; [|split; [assumption|apply refunds_grow_refl]].
  destruct (decide (o = 0)); [split; [assumption|apply refunds_grow_refl]|].
  pose proof (cancellation_on_ok_store brokers db o Hdb) as H.
  destruct (cancellation_loop _ _ _ _) as [db' [] e|e];
    [|split; [assumption|apply refunds_grow_refl]].
  destruct H as (-> & _). destruct Hdb as [Hrows Hnd]. simpl. split; [split|].
  - simpl. apply Forall_map. eapply Forall_impl; [exact Hrows|].
    intros p Hp. now apply refund_if_successful_ok.
  - simpl. rewrite map_map.
    erewrite map_ext; [exact Hnd|].
    intros p. unfold refund_if_successful. destruct (decide _); reflexivity.
  - intros pid p Hp. rewrite get_payment_map, Hp.
    + simpl. eexists. split; [reflexivity|].
      rewrite Forall_forall in Hrows. apply get_payment_In, list_elem_of_In, Hrows in Hp.
      eapply refund_if_successful_ok; eassumption.
    + intros q. unfold refund_if_successful. destruct (decide _); reflexivity.
Qed.

(* ===================================================================== *)
(** ** Reachable stores *)
(* ===================================================================== *)

Lemma empty_store_ok : store_ok empty_store.
Proof. split; simpl; constructor. Qed.

Lemma step_ok w op :
  store_ok (store w) ->
  store_ok (store (step w op))
  /\ refunds_grow (payments (store w)) (payments (store (step w op))).
Proof.
  intros Hw. destruct op as [env req|b pid req|brokers oid]; simpl.
  - now apply charge_payment_ok.
  - now apply refund_payment_ok.
  - pose proof (handle_order_cancellation_ok brokers (store w) oid Hw) as H.
    destruct (handle_order_cancellation brokers (store w) oid). exact H.
Qed.

Lemma run_ok ops w :
  store_ok (store w) ->
  store_ok (store (run ops w))
  /\ refunds_grow (payments (store w)) (payments (store (run ops w))).
Proof.
  revert w. induction ops as [|op ops IH]; intros w Hw; simpl.
  - split; [assumption|apply refunds_grow_refl].
  - destruct (step_ok w op Hw) as [Hok Hgrow].
    destruct (IH _ Hok) as [Hok' Hgrow']. split; [assumption|].
    eapply refunds_grow_trans; eassumption.
Qed.

Lemma run_app ops more w : run (ops ++ more) w = run more (run ops w).
Proof. apply fold_left_app. Qed.

(** C2.  After any sequence of charges, refunds and order cancellations
    applied to the empty store, every payment satisfies
    [0 <= refunded_amount <= amount], has status REFUNDED exactly when
    [refunded_amount = amount] and PARTIAL_REFUND exactly when
    [0 < refunded_amount < amount]; and whatever operations follow, the
    payment is still there and its [refunded_amount] has not decreased. *)
Theorem refund_accounting_invariant (ops more : list Op) :
  let db := store (run ops initial_world) in
  let db' := store (run (ops ++ more) initial_world) in
  Forall payment_ok (payments db)
  /\ forall pid p, get_payment pid (payments db) = Some p ->
       exists p', get_payment pid (payments db') = Some p'
                  /\ refunded_amount p <= refunded_amount p'.
Proof.
  intros db db'. subst db db'.
  destruct (run_ok ops initial_world empty_store_ok) as [[Hrows _] _].
  split.
  - eapply Forall_impl; [exact Hrows|]. intros p Hp. apply Hp.
  - rewrite run_app. apply run_ok. split; [exact Hrows|].
    apply (run_ok ops initial_world empty_store_ok).
Qed.

Lemma refund_accounting_invariant_witness :
  exists p',
    get_payment 1
      (payments (store (run ([Charge gateway_accepts sample_charge]
                             ++ [Refund broker_up 1 (refund_of 3000 "refund-1")])
                          initial_world))) = Some p'
    /\ 0 <= refunded_amount p'.
Proof.
  exact (proj2 (refund_accounting_invariant
                  [Charge gateway_accepts sample_charge]
                  [Refund broker_up 1 (refund_of 3000 "refund-1")])
           1 (charged_row gateway_accepts sample_charge empty_store) eq_refl).
Defined.

(* ===================================================================== *)
(** ** C3 and C4: which payments and which amounts can be refunded *)
(* ===================================================================== *)

Lemma refund_payment_on_success b db pid req p :
  refund_is_valid req = true ->
  get_payment pid (payments db) = Some p ->
  status p = SUCCESS ->
  refund_payment b db pid req = atomic db (refund_transaction b pid req p db).
Proof.
  intros Hvalid Hp Hs. unfold refund_payment. rewrite Hvalid, Hp. simpl.
  rewrite bool_decide_eq_true_2 by assumption. reflexivity.
Qed.

Lemma refund_payment_not_success b db pid req p :
  refund_is_valid req = true ->
  get_payment pid (payments db) = Some p ->
  status p <> SUCCESS ->
  refund_payment b db pid req =
    {| store_after := db; response := InvalidStatus; effects := no_effects |}.
Proof.
  intros Hvalid Hp Hs. unfold refund_payment. rewrite Hvalid, Hp. simpl.
  rewrite bool_decide_eq_false_2 by assumption. reflexivity.
Qed.

(** C3, as stated, fails: after a charge of 100.00 and a refund of 30.00 the
    payment is PARTIAL_REFUND with 30.00 refunded, and the refund of the
    remaining 70.00 is answered [invalid_status]. *)
Lemma partial_refund_then_rest_counterexample :
  get_payment 1 (payments (after_refund_of 3000)) =
    Some {| payment_id := 1; order_id := 7; amount := 10000; method := "CARD";
            status := PARTIAL_REFUND; reference := "ECI20240101-A1B2C3";
            refunded_amount := 3000;
            gateway_response := Some (GwSuccess 123456);
            failure_reason := None |}
  /\ response (refund_payment broker_up (after_refund_of 3000) 1
                 (refund_of 7000 "refund-0002")) = InvalidStatus.
Proof. split; vm_compute; reflexivity. Qed.

(** C3, amended.  For a valid request on a payment that exists, refund
    answers [invalid_status] exactly when the payment's status is not
    SUCCESS.  On a payment of 100.00 a refund of 30.00 yields
    PARTIAL_REFUND with 30.00 refunded; the refund of the remaining 70.00 on
    that payment is answered [invalid_status] and changes nothing. *)
Theorem refund_invalid_status_iff_not_success :
  (forall b db pid req p,
     refund_is_valid req = true ->
     get_payment pid (payments db) = Some p ->
     (response (refund_payment b db pid req) = InvalidStatus <-> status p <> SUCCESS))
  /\ (exists v,
        response (refund_payment broker_up after_charge 1 (refund_of 3000 "refund-0001"))
          = RefundProcessed 3000 v
        /\ v_amount v = 10000 /\ v_status v = PARTIAL_REFUND
        /\ v_refunded_amount v = 3000)
  /\ refund_payment broker_up (after_refund_of 3000) 1 (refund_of 7000 "refund-0002")
     = {| store_after := after_refund_of 3000; response := InvalidStatus;
          effects := no_effects |}.
Proof.
  split; [|split].
  - intros b db pid req p Hvalid Hp. split.
    + intros Hresp Hs. rewrite (refund_payment_on_success _ _ _ _ _ Hvalid Hp Hs) in Hresp.
      destruct (refund_transaction_cases b pid req p db)
        as [(H & _)|[(H & _)|[(H & _)|(H & _)]]]; congruence.
    + intros Hs. now rewrite (refund_payment_not_success _ _ _ _ _ Hvalid Hp Hs).
  - eexists. split; [vm_compute; reflexivity|]. repeat split.
  - vm_compute. reflexivity.
Qed.

Lemma refund_invalid_status_iff_not_success_witness :
  response (refund_payment broker_up (after_refund_of 3000) 1
              (refund_of 7000 "refund-0002")) = InvalidStatus
  <-> PARTIAL_REFUND <> SUCCESS.
Proof.
  exact (proj1 refund_invalid_status_iff_not_success broker_up
           (after_refund_of 3000) 1 (refund_of 7000 "refund-0002")
           {| payment_id := 1; order_id := 7; amount := 10000; method := "CARD";
              status := PARTIAL_REFUND; reference := "ECI20240101-A1B2C3";
              refunded_amount := 3000;
              gateway_response := Some (GwSuccess 123456);
              failure_reason := None |}
           eq_refl eq_refl).
Defined.






(* ===================================================================== *)
(** ** C9 and C10: the refund-scoped ledger record *)
(* ===================================================================== *)

Lemma refund_processed_inv b db pid req amt v :
  response (refund_payment b db pid req) = RefundProcessed amt v ->
  exists p, refund_is_valid req = true
            /\ get_payment pid (payments db) = Some p
            /\ status p = SUCCESS.
Proof.
  unfold refund_payment.
  destruct (refund_is_valid req); simpl; [|discriminate].
  destruct (get_payment pid (payments db)) as [p|]; simpl; [|discriminate].
  destruct (bool_decide (status p = SUCCESS)) eqn:Hs; simpl; [|discriminate].
  apply bool_decide_eq_true in Hs. eauto.
Qed.

(** C9.  When a refund has succeeded and left the payment REFUNDED, the
    ledger holds a COMPLETED record under the refund's key, and the same
    request sent again is answered [invalid_status], not replayed: the
    status of the payment is checked before the ledger is consulted.  The
    retry changes nothing and reaches neither gateway nor publisher. *)
Theorem refund_retry_after_full_refund (b b' : Broker) (db : Store) (pid : Z)
    (req : RefundRequest) (amt : Z) (v : PaymentView) :
  let o := refund_payment b db pid req in
  response o = RefundProcessed amt v ->
  v_status v = REFUNDED ->
  (exists row, idempotency_keys (store_after o)
                 !! refund_key pid (r_idempotency_key req) = Some row
               /\ idem_status row = Idem.COMPLETED)
  /\ refund_payment b' (store_after o) pid req =
       {| store_after := store_after o; response := InvalidStatus;
          effects := no_effects |}.
Proof.
  intros o Hresp Hv. subst o.
  destruct (refund_processed_inv _ _ _ _ _ _ Hresp) as (p & Hvalid & Hp & Hs).
  rewrite (refund_payment_on_success _ _ _ _ _ Hvalid Hp Hs) in *.
  destruct (refund_transaction_cases b pid req p db)
    as [(H & _)|[(H & _)|[(H & _)|(H & Hps & _ & Hrow & _)]]]; try congruence.
  split; [exact Hrow|].
  rewrite H in Hresp. injection Hresp as <- <-.
  set (p2 := apply_refund _ p) in *.
  apply refund_payment_not_success with (p := p2); [assumption| |].
  - rewrite Hps. eapply get_payment_save_row_eq; [eassumption|].
    unfold p2. rewrite (proj1 (apply_refund_fields _ p)).
    eapply get_payment_id; eassumption.
  - simpl in Hv. congruence.
Qed.

Lemma refund_retry_after_full_refund_witness :
  (exists row, idempotency_keys (after_refund_of 10000)
                 !! refund_key 1 "refund-0001" = Some row
               /\ idem_status row = Idem.COMPLETED)
  /\ refund_payment broker_down (after_refund_of 10000) 1 (refund_of 10000 "refund-0001") =
       {| store_after := after_refund_of 10000; response := InvalidStatus;
          effects := no_effects |}.
Proof.
  exact (refund_retry_after_full_refund broker_up broker_down after_charge 1
           (refund_of 10000 "refund-0001") 10000
           (PaymentSerializer (fully_refunded unrefunded_row)) eq_refl eq_refl).
Defined.

(** C10.  A valid refund request on a SUCCESS payment whose refund-scoped
    ledger record exists with status PROCESSING, for an amount within what
    remains and with the publisher returning, is not answered
    [duplicate_request]: the refund is applied to the payment and the record
    is overwritten with status COMPLETED.  A valid charge whose record is
    PROCESSING is answered [duplicate_request] and does nothing. *)
Theorem refund_ignores_processing_record (b : Broker) (db : Store) (pid : Z)
    (req : RefundRequest) (p : Payment) (row : IdempotencyKey) :
  refund_is_valid req = true ->
  get_payment pid (payments db) = Some p ->
  status p = SUCCESS ->
  idempotency_keys db !! refund_key pid (r_idempotency_key req) = Some row ->
  idem_status row = Idem.PROCESSING ->
  let amt := default (amount p - refunded_amount p) (r_amount req) in
  amt <= amount p - refunded_amount p ->
  publish_returns b = true ->
  let o := refund_payment b db pid req in
  (response o = RefundProcessed amt (PaymentSerializer (apply_refund amt p))
   /\ response o <> DuplicateRequest
   /\ get_payment pid (payments (store_after o)) = Some (apply_refund amt p)
   /\ refunded_amount (apply_refund amt p) = refunded_amount p + amt
   /\ exists row', idempotency_keys (store_after o)
                     !! refund_key pid (r_idempotency_key req) = Some row'
                   /\ idem_status row' = Idem.COMPLETED)
  /\ forall env creq crow,
       charge_is_valid creq = true ->
       idempotency_keys db !! c_idempotency_key creq = Some crow ->
       idem_status crow = Idem.PROCESSING ->
       charge_payment env db creq =
         {| store_after := db; response := DuplicateRequest; effects := no_effects |}.
Proof.
  intros Hvalid Hp Hs Hrow Hst amt Hle Hret o. subst o. split.
  - rewrite (refund_payment_on_success _ _ _ _ _ Hvalid Hp Hs).
    assert (Hnc : not_completed (refund_key pid (r_idempotency_key req)) db).
    { intros r Hr. rewrite Hrow in Hr. injection Hr as <-. congruence. }
    destruct (refund_transaction_cases b pid req p db)
      as [(_ & _ & _ & Hc)|[(_ & _ & _ & _ & _ & Hlt)|[(_ & _ & _ & _ & Hf)|(H & Hps & _ & Hrow' & _)]]].
    + contradiction.
    + fold amt in Hlt. lia.
    + congruence.
    + fold amt in H, Hps. rewrite H. split; [reflexivity|]. split; [discriminate|].
      split; [|split; [apply apply_refund_fields|exact Hrow']].
      rewrite Hps. eapply get_payment_save_row_eq; [eassumption|].
      rewrite (proj1 (apply_refund_fields _ p)). eapply get_payment_id; eassumption.
  - intros env creq crow Hcv Hcrow Hcst. unfold charge_payment. rewrite Hcv. simpl.
    unfold charge_transaction, get_or_create. rewrite Hcrow, Hcst. reflexivity.
Qed.

Lemma refund_ignores_processing_record_witness :
  response (refund_payment broker_up with_stuck_refund 1 (refund_of 3000 "refund-0001"))
    = RefundProcessed 3000 (PaymentSerializer (apply_refund 3000 unrefunded_row))
  /\ charge_payment gateway_accepts with_stuck_refund
       {| c_order_id := 7; c_amount := 10000; c_method := "CARD";
          c_idempotency_key := refund_key 1 "refund-0001" |} =
     {| store_after := with_stuck_refund; response := DuplicateRequest;
        effects := no_effects |}.
Proof.
  pose proof (refund_ignores_processing_record broker_up with_stuck_refund 1
                (refund_of 3000 "refund-0001") unrefunded_row stuck_refund_record
                eq_refl eq_refl eq_refl eq_refl eq_refl ltac:(simpl; lia) eq_refl)
    as [(H & _) Hcharge].
  split; [exact H|].
  exact (Hcharge gateway_accepts
           {| c_order_id := 7; c_amount := 10000; c_method := "CARD";
              c_idempotency_key := refund_key 1 "refund-0001" |}
           stuck_refund_record eq_refl eq_refl eq_refl).
Defined.

(* ===================================================================== *)
(** ** C1 and C5: a charge whose key has a FAILED record *)
(* ===================================================================== *)

Lemma charge_proceed_returns env req k idem db :
  publish_returns (env_broker env) = true ->
  reference_taken (env_reference env) (payments db) = false ->
  exists db' resp e,
    charge_proceed env req k idem db = Commit db' resp e
    /\ resp <> DuplicateRequest.
Proof.
  intros Hret Hfree. unfold charge_proceed, create_payment. rewrite Hfree.
  destruct (env_gateway env) as [txn|why].
  - match goal with |- context [publish_payment_event ?b ?ty ?d] =>
      destruct (publish_returns_spec b ty d Hret) as (r & ->) end.
    do 3 eexists. split; [reflexivity|discriminate].
  - match goal with |- context [publish_payment_event ?b ?ty ?d] =>
      destruct (publish_returns_spec b ty d Hret) as (r & ->) end.
    do 3 eexists. split; [reflexivity|discriminate].
Qed.

(** C5: what the code does.  A valid charge whose key has a FAILED record,
    with a free reference and the publisher returning, is not answered
    [duplicate_request]: a new payment row is added and the gateway is
    called for it. *)
Theorem charge_on_failed_key_charges_again (env : ChargeEnv) (db : Store)
    (req : ChargeRequest) (row : IdempotencyKey) :
  store_ok db ->
  charge_is_valid req = true ->
  idempotency_keys db !! c_idempotency_key req = Some row ->
  idem_status row = Idem.FAILED ->
  reference_taken (env_reference env) (payments db) = false ->
  publish_returns (env_broker env) = true ->
  let o := charge_payment env db req in
  response o <> DuplicateRequest
  /\ payments (store_after o) = charged_row env req db :: payments db
  /\ gateway_calls (effects o) = [next_payment_id db].
Proof.
  intros Hdb Hvalid Hrow Hst Hfree Hret o. subst o.
  unfold charge_payment. rewrite Hvalid. simpl.
  unfold charge_transaction, get_or_create. rewrite Hrow, Hst.
  destruct (charge_proceed_returns env req (c_idempotency_key req) row db Hret Hfree)
    as (db' & resp & e & Hc & Hresp).
  assert (Hgoal : atomic db (charge_proceed env req (c_idempotency_key req) row db)
                  = {| store_after := db'; response := resp; effects := e |})
    by (rewrite Hc; reflexivity).
  destruct (charge_proceed_commit _ _ _ _ _ _ _ _ Hdb Hc) as (Hps & _ & Hgw).
  destruct (payment row); rewrite Hgoal; simpl; auto.
Qed.

Lemma after_declined_charge_ok : store_ok after_declined_charge.
Proof. apply (run_ok [Charge gateway_declines sample_charge] initial_world empty_store_ok). Qed.

Lemma charge_on_failed_key_charges_again_witness :
  idempotency_keys after_declined_charge !! "charge-key-0001" = Some declined_record
  /\ response (charge_payment gateway_accepts after_declined_charge sample_charge)
     <> DuplicateRequest
  /\ payments (store_after
                 (charge_payment gateway_accepts after_declined_charge sample_charge))
     = charged_row gateway_accepts sample_charge after_declined_charge
       :: payments after_declined_charge
  /\ gateway_calls (effects
                      (charge_payment gateway_accepts after_declined_charge sample_charge))
     = [2].
Proof.
  split; [vm_compute; reflexivity|].
  exact (charge_on_failed_key_charges_again gateway_accepts after_declined_charge
           sample_charge declined_record after_declined_charge_ok
           eq_refl eq_refl eq_refl eq_refl eq_refl).
Defined.

(** C1: what the code does.  Two charges with one idempotency key, the
    first declined by the gateway and the second accepted, leave two
    payments and two gateway calls; the second call returns another payment
    view than the first. *)
Theorem charge_twice_with_one_key_after_decline :
  let first := charge_payment gateway_declines empty_store sample_charge in
  let second := charge_payment gateway_accepts (store_after first) sample_charge in
  map payment_id (payments (store_after second)) = [2; 1]
  /\ gateway_calls (effects first) ++ gateway_calls (effects second) = [1; 2]
  /\ (exists v, response first = PaymentFailed "Card declined" v /\ v_payment_id v = 1)
  /\ (exists v, response second = PaymentSuccessful v /\ v_payment_id v = 2).
Proof.
  repeat split; try (vm_compute; reflexivity);
    eexists; (split; [vm_compute; reflexivity|reflexivity]).
Qed.

(** The part of C1 that the code keeps: once the record of the key is
    COMPLETED and linked to a payment, a charge with that key is answered
    with that payment's view and does nothing else. *)
Lemma charge_replayed_when_completed env db req row pid p :
  charge_is_valid req = true ->
  idempotency_keys db !! c_idempotency_key req = Some row ->
  idem_status row = Idem.COMPLETED ->
  payment row = Some pid ->
  get_payment pid (payments db) = Some p ->
  charge_payment env db req =
    {| store_after := db; response := ChargeReplayed (PaymentSerializer p);
       effects := no_effects |}.
Proof.
  intros Hvalid Hrow Hst Hlink Hp. unfold charge_payment. rewrite Hvalid. simpl.
  unfold charge_transaction, get_or_create. rewrite Hrow, Hst, Hlink, Hp. reflexivity.
Qed.

(* ===================================================================== *)
(** ** C8: failures of the publisher *)
(* ===================================================================== *)

(** A failure that [publish_payment_event] absorbs does not show in the
    store or in the response of a charge. *)
Lemma charge_outcome_when_publisher_returns b1 b2 env db req :
  publish_returns b1 = true -> publish_returns b2 = true ->
  store_after (charge_payment (with_broker b1 env) db req)
    = store_after (charge_payment (with_broker b2 env) db req)
  /\ response (charge_payment (with_broker b1 env) db req)
     = response (charge_payment (with_broker b2 env) db req).
Proof.
  intros H1 H2. unfold charge_payment.
  destruct (charge_is_valid req); simpl; [|split; reflexivity].
  assert (Hproceed : forall k idem db0,
    store_after (atomic db (charge_proceed (with_broker b1 env) req k idem db0))
      = store_after (atomic db (charge_proceed (with_broker b2 env) req k idem db0))
    /\ response (atomic db (charge_proceed (with_broker b1 env) req k idem db0))
       = response (atomic db (charge_proceed (with_broker b2 env) req k idem db0))).
  { intros k idem db0. unfold charge_proceed. simpl.
    destruct (create_payment (env_reference env) req db0) as [[p0 db1]|];
      [|split; reflexivity].
    destruct (env_gateway env) as [txn|why].
    - destruct (publish_returns_spec b1 "payment.succeeded"
        [("payment_id", JInt (payment_id p0)); ("order_id", JInt (order_id p0));
         ("amount", JFloat (amount p0)); ("method", JStr (method p0));
         ("reference", JStr (reference p0))] H1) as (r1 & E1).
      destruct (publish_returns_spec b2 "payment.succeeded"
        [("payment_id", JInt (payment_id p0)); ("order_id", JInt (order_id p0));
         ("amount", JFloat (amount p0)); ("method", JStr (method p0));
         ("reference", JStr (reference p0))] H2) as (r2 & E2).
      simpl in *. rewrite E1, E2. split; reflexivity.
    - destruct (publish_returns_spec b1 "payment.failed"
        [("payment_id", JInt (payment_id p0)); ("order_id", JInt (order_id p0));
         ("amount", JFloat (amount p0));
         ("reason", JStr (default "Payment declined" why))] H1) as (r1 & E1).
      destruct (publish_returns_spec b2 "payment.failed"
        [("payment_id", JInt (payment_id p0)); ("order_id", JInt (order_id p0));
         ("amount", JFloat (amount p0));
         ("reason", JStr (default "Payment declined" why))] H2) as (r2 & E2).
      simpl in *. rewrite E1, E2. split; reflexivity. }
  unfold charge_transaction, get_or_create.
  destruct (idempotency_keys db !! c_idempotency_key req) as [row|]; [|apply Hproceed].
  destruct (idem_status row), (payment row); try apply Hproceed; split; reflexivity.
Qed.

Lemma refund_outcome_when_publisher_returns b1 b2 db pid req :
  publish_returns b1 = true -> publish_returns b2 = true ->
  store_after (refund_payment b1 db pid req) = store_after (refund_payment b2 db pid req)
  /\ response (refund_payment b1 db pid req) = response (refund_payment b2 db pid req).
Proof.
  intros H1 H2. unfold refund_payment.
  destruct (refund_is_valid req); simpl; [|split; reflexivity].
  destruct (get_payment pid (payments db)) as [p|]; [|split; reflexivity].
  destruct (bool_decide (status p = SUCCESS)); simpl; [|split; reflexivity].
  unfold refund_transaction.
  destruct (get_or_create _ _ db) as [[idem created] db1].
  destruct (negb created && bool_decide (idem_status idem = Idem.COMPLETED));
    [split; reflexivity|].
  destruct (_ <? _); [split; reflexivity|].
  match goal with |- context [publish_payment_event b1 ?ty ?d] =>
    destruct (publish_returns_spec b1 ty d H1) as (r1 & ->);
    destruct (publish_returns_spec b2 ty d H2) as (r2 & ->) end.
  split; reflexivity.
Qed.

(** C8: what the code does.  With the gateway accepting, a charge is
    answered 201 and committed when the broker is up or cannot even be
    reached.  When the connection is lost while [connection.close()] runs in
    the [finally] clause, [publish_payment_event] raises: the charge is
    answered 500 and its writes are undone, although the gateway was called
    and the event went out.  The same holds for a refund. *)
Theorem publisher_failure_on_close_aborts :
  let lost := with_broker broker_lost_on_close gateway_accepts in
  fst (publish_payment_event broker_lost_on_close "payment.succeeded" []) = Raised
  /\ (exists v, response (charge_payment gateway_accepts empty_store sample_charge)
                = PaymentSuccessful v)
  /\ store_after (charge_payment gateway_accepts empty_store sample_charge) = after_charge
  /\ response (charge_payment lost empty_store sample_charge) = ProcessingError
  /\ store_after (charge_payment lost empty_store sample_charge) = empty_store
  /\ gateway_calls (effects (charge_payment lost empty_store sample_charge)) = [1]
  /\ length (delivered (effects (charge_payment lost empty_store sample_charge))) = 1%nat
  /\ (exists v, response (refund_payment broker_up after_charge 1
                            (refund_of 3000 "refund-0001")) = RefundProcessed 3000 v)
  /\ response (refund_payment broker_lost_on_close after_charge 1
                 (refund_of 3000 "refund-0001")) = ProcessingError
  /\ store_after (refund_payment broker_lost_on_close after_charge 1
                    (refund_of 3000 "refund-0001")) = after_charge.
Proof.
  repeat split; try (vm_compute; reflexivity);
    eexists; vm_compute; reflexivity.
Qed.

(* ===================================================================== *)
(** ** C6 and C7: order cancellation *)
(* ===================================================================== *)

Lemma handle_order_cancellation_spec brokers db o :
  store_ok db ->
  (forall pid, publish_returns (brokers pid) = true) ->
  let r := handle_order_cancellation brokers db (Some o) in
  fst r = with_payments (map (refund_if_successful o) (payments db)) db
  /\ gateway_calls (snd r) = []
  /\ publish_calls (snd r) = map cancellation_call (successful_payments_of o (payments db))
  /\ ((forall pid, delivers (brokers pid) = true) ->
      delivered (snd r) = map cancellation_message (successful_payments_of o (payments db))).
Proof.
  intros Hdb Hret r. subst r. unfold handle_order_cancellation.
  destruct (decide (o = 0)) as [->|Hne].
  - destruct (no_payment_of_order_0 _ _ (proj1 Hdb)) as [-> ->].
    simpl. rewrite with_payments_same. repeat split; reflexivity.
  - pose proof (cancellation_on_ok_store brokers db o Hdb) as H.
    destruct (cancellation_loop _ _ _ _) as [db' [] e|e]; simpl.
    + exact H.
    + destruct H as (pid & Hpid). rewrite Hret in Hpid. discriminate.
Qed.

Lemma handle_order_cancellation_again brokers db o :
  let db' := with_payments (map (refund_if_successful o) (payments db)) db in
  handle_order_cancellation brokers db' (Some o) = (db', no_effects).
Proof.
  intros db'. unfold handle_order_cancellation.
  destruct (decide (o = 0)); [reflexivity|].
  unfold db' at 1. simpl payments. rewrite no_successful_after_cancel. reflexivity.
Qed.



Lemma cancellation_loop_calls brokers todo :
  forall db e,
    Forall lacks_total_refunded (publish_calls e) ->
    match cancellation_loop brokers todo db e with
    | Commit _ _ e' => Forall lacks_total_refunded (publish_calls e')
    | Abort e' => Forall lacks_total_refunded (publish_calls e')
    end.
Proof.
  induction todo as [|p rest IH]; intros db e He; simpl; [assumption|].
  destruct (refunded_amount p <? amount p); [|apply IH; assumption].
  assert (He' : forall sent,
            Forall lacks_total_refunded
              (publish_calls
                 (eff_app e
                    (eff_publish "payment.refunded"
                       (cancellation_event
                          (set_status REFUNDED
                             (set_refunded_amount
                                (refunded_amount p + (amount p - refunded_amount p)) p))
                          (amount p - refunded_amount p)) sent)))).
  { intros sent. simpl. apply Forall_app. split; [assumption|].
    constructor; [reflexivity|constructor]. }
  destruct (publish_payment_event _ _ _) as [[r|] sent].
  - apply IH. apply He'.
  - apply He'.
Qed.

Lemma refund_payment_calls b db pid req :
  Forall refunded_event_complete (publish_calls (effects (refund_payment b db pid req))).
Proof.
  unfold refund_payment.
  destruct (refund_is_valid req); simpl; [|constructor].
  destruct (get_payment pid (payments db)) as [p|]; [|constructor].
  destruct (bool_decide (status p = SUCCESS)); simpl; [|constructor].
  unfold refund_transaction.
  destruct (get_or_create _ _ db) as [[idem created] db1].
  destruct (negb created && bool_decide (idem_status idem = Idem.COMPLETED));
    [constructor|].
  destruct (_ <? _); [constructor|].
  assert (Hd : forall d5 : EventData, 
     d5 = [("payment_id", JInt (payment_id (apply_refund (default (amount p - refunded_amount p) (r_amount req)) p)));
           ("order_id", JInt (order_id (apply_refund (default (amount p - refunded_amount p) (r_amount req)) p)));
           ("refund_amount", JFloat (default (amount p - refunded_amount p) (r_amount req)));
           ("total_refunded", JFloat (refunded_amount (apply_refund (default (amount p - refunded_amount p) (r_amount req)) p)));
           ("reason", JStr (default "Customer request" (r_reason req)))] ->
     refunded_event_complete ("payment.refunded", d5)).
  { intros d5 ->. split; [reflexivity|]. repeat constructor. }
  destruct (publish_payment_event _ _ _) as [[r|] sent]; simpl;
    (constructor; [apply Hd; reflexivity|constructor]).
Qed.

(** C7: what the code does.  No call of [publish_payment_event] made by
    [handle_order_cancellation] has a ['total_refunded'] entry in its data;
    for one successful payment of 100.00 the published [payment.refunded]
    carries [payment_id], [order_id], [refund_amount] and [reason] only.
    Every [payment.refunded] published by [refund_payment] has all five
    fields. *)
Theorem cancellation_event_lacks_total_refunded :
  (forall brokers db oid,
     Forall lacks_total_refunded
       (publish_calls (snd (handle_order_cancellation brokers db oid))))
  /\ delivered (snd (handle_order_cancellation (fun _ => broker_up) after_charge (Some 7)))
     = [{| event_type := "payment.refunded"; timestamp := "";
           data := [("payment_id", JInt 1); ("order_id", JInt 7);
                    ("refund_amount", JFloat 10000);
                    ("reason", JStr "Order cancellation")] |}]
  /\ (forall b db pid req,
        Forall refunded_event_complete
          (publish_calls (effects (refund_payment b db pid req)))).
Proof.
  split; [|split].
  - intros brokers db oid. unfold handle_order_cancellation.
    destruct oid as [o|]; [|constructor].
    destruct (decide (o = 0)); [constructor|].
    pose proof (cancellation_loop_calls brokers (successful_payments_of o (payments db))
                  db no_effects ltac:(constructor)) as H.
    destruct (cancellation_loop _ _ _ _) as [db' [] e|e]; exact H.
  - vm_compute. reflexivity.
  - apply refund_payment_calls.
Qed.

(* ===================================================================== *)
(** ** Further properties of [charge_payment] *)
(* ===================================================================== *)

Lemma charge_proceed_cases env req k idem db :
  store_ok db ->
  match charge_proceed env req k idem db with
  | Commit db' resp e =>
      reference_taken (env_reference env) (payments db) = false
      /\ publish_returns (env_broker env) = true
      /\ payments db' = charged_row env req db :: payments db
      /\ next_payment_id db' = next_payment_id db + 1
      /\ idempotency_keys db' = <[k := charge_record env req idem db]> (idempotency_keys db)
      /\ resp = charge_response env req db
      /\ gateway_calls e = [next_payment_id db]
      /\ publish_calls e = [charge_event env req db]
  | Abort e =>
      (reference_taken (env_reference env) (payments db) = true /\ e = no_effects)
      \/ (reference_taken (env_reference env) (payments db) = false
          /\ publish_returns (env_broker env) = false
          /\ gateway_calls e = [next_payment_id db]
          /\ publish_calls e = [charge_event env req db])
  end.
Proof.
  intros Hdb. pose proof (store_ok_ids _ Hdb) as Hids.
  unfold charge_proceed, create_payment, charged_row, charge_record, charge_response,
    charge_event, charged_row.
  destruct (reference_taken _ _); [left; auto|].
  destruct (publish_returns (env_broker env)) eqn:Hret.
  - destruct (env_gateway env) as [txn|why];
      match goal with |- context [publish_payment_event ?b ?ty ?d] =>
        destruct (publish_returns_spec b ty d Hret) as (r & ->) end;
      simpl; rewrite decide_True by reflexivity;
      rewrite save_row_fresh by exact Hids;
      rewrite insert_insert_eq; repeat split; reflexivity.
  - destruct (env_gateway env) as [txn|why];
      match goal with |- context [publish_payment_event ?b ?ty ?d] =>
        pose proof (publish_raises_spec b ty d Hret) as Hr;
        destruct (publish_payment_event b ty d) as [res sent] end;
      simpl in Hr; subst res; right; repeat split; reflexivity.
Qed.

Lemma charge_payment_commit env db req idem :
  store_ok db ->
  charge_is_valid req = true ->
  charge_proceeds_with db req = Some idem ->
  reference_taken (env_reference env) (payments db) = false ->
  publish_returns (env_broker env) = true ->
  let o := charge_payment env db req in
  response o = charge_response env req db
  /\ payments (store_after o) = charged_row env req db :: payments db
  /\ next_payment_id (store_after o) = next_payment_id db + 1
  /\ idempotency_keys (store_after o)
     = <[c_idempotency_key req := charge_record env req idem db]> (idempotency_keys db)
  /\ gateway_calls (effects o) = [next_payment_id db]
  /\ publish_calls (effects o) = [charge_event env req db].
Proof.
  intros Hdb Hvalid Hwith Hfree Hret o. subst o.
  unfold charge_payment. rewrite Hvalid. simpl.
  unfold charge_transaction, get_or_create. unfold charge_proceeds_with in Hwith.
  destruct (idempotency_keys db !! c_idempotency_key req) as [row|] eqn:Hrow.
  - assert (Hcase :
      atomic db
        (match idem_status row, payment row with
         | Idem.COMPLETED, Some pid =>
             match get_payment pid (payments db) with
             | Some p => Commit db (ChargeReplayed (PaymentSerializer p)) no_effects
             | None => Abort no_effects
             end
         | Idem.PROCESSING, _ => Commit db DuplicateRequest no_effects
         | _, _ => charge_proceed env req (c_idempotency_key req) row db
         end)
      = atomic db (charge_proceed env req (c_idempotency_key req) idem db)).
    { destruct (idem_status row), (payment row); congruence. }
    rewrite Hcase. clear Hcase.
    pose proof (charge_proceed_cases env req (c_idempotency_key req) idem db Hdb) as H.
    destruct (charge_proceed env req (c_idempotency_key req) idem db)
      as [db' resp e|e]; simpl.
    + destruct H as (_ & _ & H1 & H2 & H3 & H4 & H5 & H6). auto 10.
    + destruct H as [[H _]|(_ & H & _)]; congruence.
  - injection Hwith as <-.
    pose proof (charge_proceed_cases env req (c_idempotency_key req) (charge_defaults req)
                  (save_idempotency_key (c_idempotency_key req) (charge_defaults req) db)
                  Hdb) as H.
    fold (charge_defaults req).
    destruct (charge_proceed _ _ _ _ _) as [db' resp e|e]; simpl.
    + destruct H as (_ & _ & H1 & H2 & H3 & H4 & H5 & H6).
      simpl in H3. rewrite insert_insert_eq in H3. auto 10.
    + simpl in H. destruct H as [[H _]|(_ & H & _)]; congruence.
Qed.

Lemma charge_payment_abort env db req idem :
  store_ok db ->
  charge_is_valid req = true ->
  charge_proceeds_with db req = Some idem ->
  let o := charge_payment env db req in
  (reference_taken (env_reference env) (payments db) = true ->
   o = {| store_after := db; response := ProcessingError; effects := no_effects |})
  /\ (reference_taken (env_reference env) (payments db) = false ->
      publish_returns (env_broker env) = false ->
      store_after o = db /\ response o = ProcessingError
      /\ gateway_calls (effects o) = [next_payment_id db]
      /\ publish_calls (effects o) = [charge_event env req db]).
Proof.
  intros Hdb Hvalid Hwith o. subst o.
  unfold charge_payment. rewrite Hvalid. simpl.
  unfold charge_transaction, get_or_create. unfold charge_proceeds_with in Hwith.
  destruct (idempotency_keys db !! c_idempotency_key req) as [row|] eqn:Hrow.
  - assert (Hcase :
      atomic db
        (match idem_status row, payment row with
         | Idem.COMPLETED, Some pid =>
             match get_payment pid (payments db) with
             | Some p => Commit db (ChargeReplayed (PaymentSerializer p)) no_effects
             | None => Abort no_effects
             end
         | Idem.PROCESSING, _ => Commit db DuplicateRequest no_effects
         | _, _ => charge_proceed env req (c_idempotency_key req) row db
         end)
      = atomic db (charge_proceed env req (c_idempotency_key req) idem db)).
    { destruct (idem_status row), (payment row); congruence. }
    rewrite Hcase. clear Hcase.
    pose proof (charge_proceed_cases env req (c_idempotency_key req) idem db Hdb) as H.
    destruct (charge_proceed env req (c_idempotency_key req) idem db)
      as [db' resp e|e]; simpl.
    + destruct H as (H1 & H2 & _). split; intros; congruence.
    + destruct H as [[H ->]|(H1 & H2 & H3 & H4)]; split; intros; try congruence; auto.
  - injection Hwith as <-.
    pose proof (charge_proceed_cases env req (c_idempotency_key req) (charge_defaults req)
                  (save_idempotency_key (c_idempotency_key req) (charge_defaults req) db)
                  Hdb) as H.
    fold (charge_defaults req).
    destruct (charge_proceed _ _ _ _ _) as [db' resp e|e]; simpl.
    + destruct H as (H1 & H2 & _). simpl in H1. split; intros; congruence.
    + simpl in H.
      destruct H as [[H ->]|(H1 & H2 & H3 & H4)]; split; intros; try congruence; auto.
Qed.

(** What a charge answers when it does not go on to create a payment. *)
Lemma charge_payment_settled env db req :
  charge_is_valid req = true ->
  charge_proceeds_with db req = None ->
  let o := charge_payment env db req in
  store_after o = db /\ effects o = no_effects
  /\ ((exists p, response o = ChargeReplayed (PaymentSerializer p))
      \/ response o = DuplicateRequest \/ response o = ProcessingError).
Proof.
  intros Hvalid Hwith o. subst o.
  unfold charge_payment. rewrite Hvalid. simpl.
  unfold charge_transaction, get_or_create. unfold charge_proceeds_with in Hwith.
  destruct (idempotency_keys db !! c_idempotency_key req) as [row|]; [|discriminate].
  destruct (idem_status row), (payment row) as [pid|]; try discriminate; simpl; auto.
  destruct (get_payment pid (payments db)); simpl; eauto 6.
Qed.

Lemma charge_payment_created env db req :
  store_ok db ->
  match response (charge_payment env db req) with
  | PaymentSuccessful _ | PaymentFailed _ _ =>
      charge_is_valid req = true
      /\ (exists idem, charge_proceeds_with db req = Some idem)
      /\ reference_taken (env_reference env) (payments db) = false
      /\ publish_returns (env_broker env) = true
  | _ => True
  end.
Proof.
  intros Hdb.
  destruct (charge_is_valid req) eqn:Hvalid;
    [|unfold charge_payment; rewrite Hvalid; exact I].
  destruct (charge_proceeds_with db req) as [idem|] eqn:Hwith.
  - destruct (reference_taken (env_reference env) (payments db)) eqn:Hfree.
    + rewrite (proj1 (charge_payment_abort env db req idem Hdb Hvalid Hwith) Hfree).
      exact I.
    + destruct (publish_returns (env_broker env)) eqn:Hret.
      * destruct (response _); eauto.
      * destruct (proj2 (charge_payment_abort env db req idem Hdb Hvalid Hwith)
                    Hfree Hret) as (_ & -> & _). exact I.
  - destruct (charge_payment_settled env db req Hvalid Hwith)
      as (_ & _ & [(p & ->)|[->| ->]]); exact I.
Qed.

Lemma charged_row_id env req db :
  payment_id (charged_row env req db) = next_payment_id db.
Proof. unfold charged_row. destruct (env_gateway env); reflexivity. Qed.

(** After a charge answered 201, the ledger record of its key is COMPLETED
    and linked to the payment whose view was returned. *)
Lemma charge_successful_store env db req v :
  store_ok db ->
  response (charge_payment env db req) = PaymentSuccessful v ->
  let db' := store_after (charge_payment env db req) in
  charge_is_valid req = true
  /\ v = PaymentSerializer (charged_row env req db)
  /\ status (charged_row env req db) = SUCCESS
  /\ get_payment (v_payment_id v) (payments db') = Some (charged_row env req db)
  /\ exists row, idempotency_keys db' !! c_idempotency_key req = Some row
                 /\ idem_status row = Idem.COMPLETED
                 /\ payment row = Some (v_payment_id v).
Proof.
  intros Hdb Hresp db'. subst db'.
  pose proof (charge_payment_created env db req Hdb) as Hinv.
  rewrite Hresp in Hinv. destruct Hinv as (Hvalid & (idem & Hwith) & Hfree & Hret).
  destruct (charge_payment_commit env db req idem Hdb Hvalid Hwith Hfree Hret)
    as (Hr & Hps & _ & Hledger & _).
  rewrite Hresp in Hr. rewrite Hps, Hledger.
  unfold charge_response, charge_record in *.
  assert (Hst : status (charged_row env req db) = SUCCESS
                /\ v = PaymentSerializer (charged_row env req db)).
  { unfold charged_row in *. destruct (env_gateway env); [|discriminate].
    injection Hr as ->. split; reflexivity. }
  destruct Hst as [Hst ->]. split; [assumption|]. split; [reflexivity|].
  split; [assumption|]. simpl v_payment_id.
  split.
  - simpl. rewrite decide_True by reflexivity. reflexivity.
  - rewrite lookup_insert_eq. eexists. split; [reflexivity|].
    destruct (env_gateway env); [|discriminate]. simpl.
    rewrite charged_row_id. split; reflexivity.
Qed.

(** X1.  After a charge answered 201, the same request sent again is answered
    200 with the same payment view, whatever gateway and broker would do: the
    store is left as it is, and neither gateway nor publisher is called. *)
Theorem charge_retry_replays (env env' : ChargeEnv) (db : Store)
    (req : ChargeRequest) (v : PaymentView) :
  store_ok db ->
  response (charge_payment env db req) = PaymentSuccessful v ->
  let db' := store_after (charge_payment env db req) in
  charge_payment env' db' req =
    {| store_after := db'; response := ChargeReplayed v; effects := no_effects |}.
Proof.
  intros Hdb Hresp db'.
  destruct (charge_successful_store env db req v Hdb Hresp)
    as (Hvalid & Hv & _ & Hget & row & Hrow & Hst & Hlink).
  fold db' in Hget, Hrow. rewrite Hv.
  eapply charge_replayed_when_completed; eassumption.
Qed.

Lemma charge_retry_replays_witness :
  charge_payment gateway_declines after_charge sample_charge =
    {| store_after := after_charge;
       response := ChargeReplayed (PaymentSerializer unrefunded_row);
       effects := no_effects |}.
Proof.
  exact (charge_retry_replays gateway_accepts gateway_declines empty_store
           sample_charge (PaymentSerializer unrefunded_row) empty_store_ok eq_refl).
Defined.

(** X2.  When the reference drawn for a new payment is already the reference
    of a stored payment, a valid charge under a key that the ledger does not
    know is answered 500: the store is exactly what it was, so the key is
    still unknown, and neither gateway nor publisher was called. *)
Theorem charge_reference_collision (env : ChargeEnv) (db : Store)
    (req : ChargeRequest) (p : Payment) :
  store_ok db ->
  charge_is_valid req = true ->
  idempotency_keys db !! c_idempotency_key req = None ->
  In p (payments db) ->
  reference p = env_reference env ->
  charge_payment env db req =
    {| store_after := db; response := ProcessingError; effects := no_effects |}.
Proof.
  intros Hdb Hvalid Hnone Hin Href.
  apply (proj1 (charge_payment_abort env db req (charge_defaults req) Hdb Hvalid
                  ltac:(unfold charge_proceeds_with; rewrite Hnone; reflexivity))).
  unfold reference_taken. apply existsb_exists. exists p. split; [assumption|].
  now apply bool_decide_eq_true.
Qed.

Lemma charge_reference_collision_witness :
  charge_payment gateway_accepts after_charge sample_charge_50 =
    {| store_after := after_charge; response := ProcessingError;
       effects := no_effects |}.
Proof.
  exact (charge_reference_collision gateway_accepts after_charge sample_charge_50
           unrefunded_row
           (proj1 (run_ok [Charge gateway_accepts sample_charge] initial_world
                     empty_store_ok))
           eq_refl eq_refl (or_introl eq_refl) eq_refl).
Defined.

(** X3.  The ledger keys of charges and refunds share one table.  After a
    charge answered 201 whose idempotency key reads
    [refund_<payment_id>_<key>] for the payment it created, a valid refund of
    that payment under [<key>] is answered 200 "already processed" with the
    unrefunded payment: nothing is refunded and nothing is published. *)
Theorem charge_key_shadows_refund (env : ChargeEnv) (b : Broker) (db : Store)
    (creq : ChargeRequest) (req : RefundRequest) (v : PaymentView) :
  store_ok db ->
  response (charge_payment env db creq) = PaymentSuccessful v ->
  c_idempotency_key creq = refund_key (v_payment_id v) (r_idempotency_key req) ->
  refund_is_valid req = true ->
  let db' := store_after (charge_payment env db creq) in
  v_refunded_amount v = 0
  /\ refund_payment b db' (v_payment_id v) req =
       {| store_after := db'; response := RefundReplayed v; effects := no_effects |}.
Proof.
  intros Hdb Hresp Hkey Hvalid db'.
  destruct (charge_successful_store env db creq v Hdb Hresp)
    as (_ & Hv & Hs & Hget & row & Hrow & Hst & _).
  fold db' in Hget, Hrow. split.
  - rewrite Hv. unfold charged_row. destruct (env_gateway env); reflexivity.
  - rewrite (refund_payment_on_success _ _ _ _ _ Hvalid Hget Hs).
    unfold refund_transaction, get_or_create. rewrite <- Hkey, Hrow. simpl.
    rewrite bool_decide_eq_true_2 by assumption. simpl. now rewrite Hv.
Qed.

Lemma charge_key_shadows_refund_witness :
  let db' := store_after (charge_payment gateway_accepts empty_store shadowing_charge) in
  0 = 0
  /\ refund_payment broker_up db' 1 (refund_of 10000 "refund-0001") =
       {| store_after := db';
          response := RefundReplayed
                        (PaymentSerializer (charged_row gateway_accepts shadowing_charge
                                              empty_store));
          effects := no_effects |}.
Proof.
  exact (charge_key_shadows_refund gateway_accepts broker_up empty_store
           shadowing_charge (refund_of 10000 "refund-0001")
           (PaymentSerializer (charged_row gateway_accepts shadowing_charge empty_store))
           empty_store_ok eq_refl eq_refl eq_refl).
Defined.

(* ===================================================================== *)
(** ** Further properties of [refund_payment] *)
(* ===================================================================== *)

(** X4.  A payment is refunded at most once.  After a refund answered 200
    "processed", every further valid refund request for that payment,
    whatever its key and amount, is answered [invalid_status] and changes
    nothing: what a partial refund left over cannot be refunded through
    [refund_payment]. *)
Theorem refund_at_most_once (b b' : Broker) (db : Store) (pid : Z)
    (req req' : RefundRequest) (amt : Z) (v : PaymentView) :
  response (refund_payment b db pid req) = RefundProcessed amt v ->
  refund_is_valid req' = true ->
  let db' := store_after (refund_payment b db pid req) in
  (v_status v = PARTIAL_REFUND \/ v_status v = REFUNDED)
  /\ refund_payment b' db' pid req' =
       {| store_after := db'; response := InvalidStatus; effects := no_effects |}.
Proof.
  intros Hresp Hvalid' db'. subst db'.
  destruct (refund_processed_inv _ _ _ _ _ _ Hresp) as (p & Hvalid & Hp & Hs).
  rewrite (refund_payment_on_success _ _ _ _ _ Hvalid Hp Hs) in *.
  destruct (refund_transaction_cases b pid req p db)
    as [(H & _)|[(H & _)|[(H & _)|(H & Hps & _)]]]; try congruence.
  rewrite H in Hresp. injection Hresp as <- <-.
  set (p2 := apply_refund _ p) in *.
  assert (Hst : status p2 = PARTIAL_REFUND \/ status p2 = REFUNDED).
  { unfold p2. rewrite apply_refund_status. destruct (_ <=? _); auto. }
  split; [exact Hst|].
  apply refund_payment_not_success with (p := p2); [assumption| |].
  - rewrite Hps. eapply get_payment_save_row_eq; [eassumption|].
    unfold p2. rewrite (proj1 (apply_refund_fields _ p)).
    eapply get_payment_id; eassumption.
  - destruct Hst as [-> | ->]; discriminate.
Qed.

Lemma refund_at_most_once_witness :
  (PARTIAL_REFUND = PARTIAL_REFUND \/ PARTIAL_REFUND = REFUNDED)
  /\ refund_payment broker_up (after_refund_of 3000) 1 (refund_of 7000 "refund-0002") =
       {| store_after := after_refund_of 3000; response := InvalidStatus;
          effects := no_effects |}.
Proof.
  exact (refund_at_most_once broker_up broker_up after_charge 1
           (refund_of 3000 "refund-0001") (refund_of 7000 "refund-0002") 3000
           (PaymentSerializer (apply_refund 3000 unrefunded_row)) eq_refl eq_refl).
Defined.




(** X6.  A valid refund request for more than what remains, under a key
    that the ledger does not know, is answered [invalid_amount] but leaves a
    PROCESSING record under [refund_<payment_id>_<key>] behind.  A valid
    charge whose idempotency key is that very string is then answered 409
    [duplicate_request] and creates no payment. *)
Theorem rejected_refund_blocks_charge_key (b : Broker) (env : ChargeEnv)
    (db : Store) (pid : Z) (req : RefundRequest) (creq : ChargeRequest)
    (p : Payment) (a : Z) :
  refund_is_valid req = true ->
  get_payment pid (payments db) = Some p ->
  status p = SUCCESS ->
  idempotency_keys db !! refund_key pid (r_idempotency_key req) = None ->
  r_amount req = Some a ->
  amount p - refunded_amount p < a ->
  charge_is_valid creq = true ->
  c_idempotency_key creq = refund_key pid (r_idempotency_key req) ->
  let o := refund_payment b db pid req in
  response o = InvalidAmount (amount p - refunded_amount p)
  /\ (exists row, idempotency_keys (store_after o)
                    !! refund_key pid (r_idempotency_key req) = Some row
                  /\ idem_status row = Idem.PROCESSING)
  /\ charge_payment env (store_after o) creq =
       {| store_after := store_after o; response := DuplicateRequest;
          effects := no_effects |}.
Proof.
  intros Hvalid Hp Hs Hnone Ha Hlt Hcv Hkey o. subst o.
  rewrite (refund_payment_on_success _ _ _ _ _ Hvalid Hp Hs).
  unfold refund_transaction, get_or_create. rewrite Hnone, Ha. simpl.
  destruct (Z.ltb_spec (amount p - refunded_amount p) a); [|lia]. simpl.
  split; [reflexivity|]. split.
  - eexists. rewrite lookup_insert_eq. split; reflexivity.
  - unfold charge_payment. rewrite Hcv. simpl.
    unfold charge_transaction, get_or_create. simpl.
    rewrite Hkey, lookup_insert_eq. reflexivity.
Qed.

Lemma rejected_refund_blocks_charge_key_witness :
  let o := refund_payment broker_up after_charge 1 (refund_of 10001 "refund-0001") in
  response o = InvalidAmount 10000
  /\ (exists row, idempotency_keys (store_after o) !! refund_key 1 "refund-0001" = Some row
                  /\ idem_status row = Idem.PROCESSING)
  /\ charge_payment gateway_accepts (store_after o) blocked_charge =
       {| store_after := store_after o; response := DuplicateRequest;
          effects := no_effects |}.
Proof.
  exact (rejected_refund_blocks_charge_key broker_up gateway_accepts after_charge 1
           (refund_of 10001 "refund-0001") blocked_charge unrefunded_row 10001
           eq_refl eq_refl eq_refl eq_refl eq_refl ltac:(simpl; lia) eq_refl eq_refl).
Defined.

(* ===================================================================== *)
(** ** What every operation does to the tables *)
(* ===================================================================== *)

Lemma charge_payment_shape env db req :
  store_ok db -> table_step db (store_after (charge_payment env db req)).
Proof.
  intros Hdb.
  destruct (charge_is_valid req) eqn:Hvalid;
    [|unfold charge_payment; rewrite Hvalid; left; split; reflexivity].
  destruct (charge_proceeds_with db req) as [idem|] eqn:Hwith.
  - destruct (reference_taken (env_reference env) (payments db)) eqn:Hfree.
    + rewrite (proj1 (charge_payment_abort env db req idem Hdb Hvalid Hwith) Hfree).
      left; split; reflexivity.
    + destruct (publish_returns (env_broker env)) eqn:Hret.
      * destruct (charge_payment_commit env db req idem Hdb Hvalid Hwith Hfree Hret)
          as (_ & Hps & Hnext & _).
        right; left. exists env, req. auto.
      * destruct (proj2 (charge_payment_abort env db req idem Hdb Hvalid Hwith)
                    Hfree Hret) as (-> & _). left; split; reflexivity.
  - destruct (charge_payment_settled env db req Hvalid Hwith) as (-> & _).
    left; split; reflexivity.
Qed.

Lemma refund_payment_shape b db pid req :
  store_ok db -> table_step db (store_after (refund_payment b db pid req)).
Proof.
  intros Hdb. unfold refund_payment.
  destruct (refund_is_valid req) eqn:Hvalid; simpl; [|left; split; reflexivity].
  destruct (get_payment pid (payments db)) as [p|] eqn:Hp; [|left; split; reflexivity].
  destruct (bool_decide (status p = SUCCESS)) eqn:Hs; simpl; [|left; split; reflexivity].
  apply bool_decide_eq_true in Hs.
  pose proof (store_ok_row _ _ _ Hdb Hp) as (Hok & Hamt & _).
  pose proof (success_unrefunded _ Hok Hs) as Hzero.
  destruct (refund_transaction_cases b pid req p db)
    as [(_ & -> & _)|[(_ & Hps & Hnext & _)|[(_ & -> & _)|(_ & Hps & Hnext & _ & _ & _ & Hle & _)]]].
  - left; split; reflexivity.
  - left; split; assumption.
  - left; split; reflexivity.
  - right; right; left. exists pid, p, (default (amount p - refunded_amount p) (r_amount req)).
    repeat split; auto. apply refund_amount_positive; [assumption|lia].
Qed.

Lemma handle_order_cancellation_shape brokers db oid :
  store_ok db -> table_step db (fst (handle_order_cancellation brokers db oid)).
Proof.
  intros Hdb. unfold handle_order_cancellation.
  destruct oid as [o|]; [|left; split; reflexivity].
  destruct (decide (o = 0)); [left; split; reflexivity|].
  pose proof (cancellation_on_ok_store brokers db o Hdb) as H.
  destruct (cancellation_loop _ _ _ _) as [db' [] e|e]; [|left; split; reflexivity].
  destruct H as (-> & _). right; right; right. exists o. split; reflexivity.
Qed.

Lemma step_shape w op :
  store_ok (store w) -> table_step (store w) (store (step w op)).
Proof.
  intros Hw. destruct op as [env req|b pid req|brokers oid]; simpl.
  - now apply charge_payment_shape.
  - now apply refund_payment_shape.
  - pose proof (handle_order_cancellation_shape brokers (store w) oid Hw) as H.
    destruct (handle_order_cancellation brokers (store w) oid). exact H.
Qed.

Lemma run_snoc ops op w : run (ops ++ [op]) w = step (run ops w) op.
Proof. unfold run. now rewrite fold_left_app. Qed.

Lemma reachable_ok ops : store_ok (store (run ops initial_world)).
Proof. apply (run_ok ops initial_world empty_store_ok). Qed.

Lemma apply_refund_transition amt p :
  status p = SUCCESS -> refunded_amount p = 0 -> 0 < amt <= amount p ->
  refund_transition p (apply_refund amt p).
Proof.
  intros Hs Hzero Hamt. unfold refund_transition.
  destruct (apply_refund_fields amt p) as (_ & _ & _ & Hr).
  rewrite Hr, apply_refund_status, Hzero.
  split; [assumption|]. split; [destruct (_ <=? _); auto|].
  split; [|lia].
  unfold apply_refund. simpl. rewrite Hzero.
  destruct (amount p <=? 0 + amt); destruct p; reflexivity.
Qed.

Lemma fully_refunded_transition p :
  status p = SUCCESS -> refunded_amount p = 0 -> 1 <= amount p ->
  refund_transition p (fully_refunded p).
Proof.
  intros Hs Hzero Hamt. unfold refund_transition, fully_refunded. simpl.
  split; [assumption|]. split; [auto|]. split; [reflexivity|lia].
Qed.

(** X7.  The life of a stored payment.  Whatever operation is applied to a
    store reached by any sequence of operations, a payment that is stored
    stays stored under its id, and its row is either untouched or goes
    from SUCCESS to PARTIAL_REFUND or REFUNDED with a larger
    [refunded_amount] and no other field changed.  A payment that is FAILED,
    PARTIAL_REFUND or REFUNDED is never written again. *)
Theorem payment_transitions (ops : list Op) (op : Op) (pid : Z) (p : Payment) :
  get_payment pid (payments (store (run ops initial_world))) = Some p ->
  exists p',
    get_payment pid (payments (store (step (run ops initial_world) op))) = Some p'
    /\ (p' = p \/ refund_transition p p')
    /\ (status p <> SUCCESS -> p' = p).
Proof.
  intros Hp. pose proof (reachable_ok ops) as Hdb.
  set (w := run ops initial_world) in *.
  pose proof (store_ok_row _ _ _ Hdb Hp) as (Hok & Hamt & _ & Hlt).
  pose proof (get_payment_id _ _ _ Hp) as Hpid.
  destruct (step_shape w op Hdb)
    as [[-> _]|[(env & req & _ & _ & -> & _)|[(pid0 & p0 & amt & Hp0 & Hs0 & Hamt0 & -> & _)|(o & -> & _)]]].
  - exists p. auto.
  - exists p. split; [|auto]. simpl. rewrite charged_row_id.
    destruct (decide (next_payment_id (store w) = pid)); [lia|assumption].
  - pose proof (get_payment_id _ _ _ Hp0) as Hpid0.
    destruct (decide (pid0 = pid)) as [->|Hne].
    + assert (p0 = p) by congruence. subst p0.
      exists (apply_refund amt p). split; [|split].
      * eapply get_payment_save_row_eq; [eassumption|].
        now rewrite (proj1 (apply_refund_fields amt p)).
      * right. pose proof (success_unrefunded _ Hok Hs0).
        apply apply_refund_transition; [assumption|assumption|lia].
      * congruence.
    + exists p. split; [|auto].
      rewrite get_payment_save_row_ne; [assumption|].
      rewrite (proj1 (apply_refund_fields amt p0)). congruence.
  - exists (refund_if_successful o p). split; [|split].
    + rewrite get_payment_map, Hp; [reflexivity|].
      intros q. unfold refund_if_successful. destruct (decide _); reflexivity.
    + unfold refund_if_successful.
      destruct (decide (order_id p = o /\ status p = SUCCESS)) as [[_ Hs]|]; [|auto].
      right. apply fully_refunded_transition; auto.
      now apply success_unrefunded.
    + intros Hs. unfold refund_if_successful. apply decide_False. tauto.
Qed.

Lemma payment_transitions_witness :
  exists p',
    get_payment 1
      (payments (store (step (run [Charge gateway_accepts sample_charge] initial_world)
                          (Refund broker_up 1 (refund_of 3000 "refund-0001"))))) = Some p'
    /\ (p' = unrefunded_row \/ refund_transition unrefunded_row p')
    /\ (SUCCESS <> SUCCESS -> p' = unrefunded_row).
Proof.
  exact (payment_transitions [Charge gateway_accepts sample_charge]
           (Refund broker_up 1 (refund_of 3000 "refund-0001")) 1 unrefunded_row eq_refl).
Defined.

Lemma reference_free_spec ref ps :
  reference_taken ref ps = false -> ~ In ref (map reference ps).
Proof.
  unfold reference_taken. intros Hfree Hin.
  apply in_map_iff in Hin as (p & Href & Hin).
  assert (existsb (fun p => bool_decide (reference p = ref)) ps = true).
  { apply existsb_exists. exists p. split; [assumption|]. now apply bool_decide_eq_true. }
  congruence.
Qed.

Lemma charged_row_sound env req db :
  charge_is_valid req = true -> 1 <= next_payment_id db ->
  row_sound (charged_row env req db).
Proof.
  intros Hvalid Hnext. unfold charge_is_valid in Hvalid.
  repeat (apply andb_prop in Hvalid; destruct Hvalid as [Hvalid ?]).
  match goal with H : bool_decide _ = true |- _ => apply bool_decide_eq_true in H end.
  unfold row_sound, charged_row.
  destruct (env_gateway env); simpl; repeat split; try lia; try discriminate;
    try assumption; try congruence.
Qed.

Lemma apply_refund_sound amt p :
  status p = SUCCESS -> row_sound p -> row_sound (apply_refund amt p).
Proof.
  intros Hs (H1 & H2 & H3 & H4 & H5 & H6 & H7).
  assert (Hnone : failure_reason p = None).
  { destruct (failure_reason p) eqn:E; [|reflexivity].
    assert (status p = FAILED) by (apply H6; congruence). congruence. }
  unfold row_sound, apply_refund. simpl.
  destruct (_ <=? _); simpl; rewrite Hnone; repeat split; auto; try discriminate;
    try lia; intros; congruence.
Qed.

Lemma refund_if_successful_sound o p :
  row_sound p -> row_sound (refund_if_successful o p).
Proof.
  intros Hp. unfold refund_if_successful.
  destruct (decide (order_id p = o /\ status p = SUCCESS)) as [[_ Hs]|]; [|assumption].
  destruct Hp as (H1 & H2 & H3 & H4 & H5 & H6 & H7).
  assert (Hnone : failure_reason p = None).
  { destruct (failure_reason p) eqn:E; [|reflexivity].
    assert (status p = FAILED) by (apply H6; congruence). congruence. }
  unfold row_sound, fully_refunded. simpl. rewrite Hnone.
  repeat split; auto; try discriminate; try lia; intros; congruence.
Qed.

Lemma save_row_references p q ps :
  NoDup (map payment_id ps) ->
  get_payment (payment_id p) ps = Some q ->
  reference p = reference q ->
  map reference (save_row p ps) = map reference ps.
Proof.
  intros Hnd Hq Href. rewrite save_row_map, map_map. apply map_ext_in.
  intros x Hx. destruct (decide (payment_id x = payment_id p)) as [e|]; [|reflexivity].
  assert (get_payment (payment_id x) ps = Some x).
  { clear Hq. induction ps as [|y ps IH]; [contradiction|]. simpl in *.
    apply NoDup_cons in Hnd as [Hfresh Hnd].
    destruct Hx as [->|Hx].
    - now rewrite decide_True.
    - rewrite decide_False; [auto|]. intros Heq. apply Hfresh. rewrite Heq.
      apply list_elem_of_In, in_map. assumption. }
  rewrite e in H. congruence.
Qed.

Lemma store_sound_step db db' :
  store_ok db -> 1 <= next_payment_id db -> store_sound db -> table_step db db' ->
  store_sound db' /\ 1 <= next_payment_id db'.
Proof.
  intros Hdb Hnext (Hrows & Hids & Hnd & Hrefs)
    [[Hps Hn]|[(env & req & Hvalid & Hfree & Hps & Hn)|[(pid & p & amt & Hp & Hs & Hamt & Hps & Hn)|(o & Hps & Hn)]]];
    unfold store_sound; rewrite Hps, Hn.
  - auto.
  - split; [|lia]. split; [|split; [|split]].
    + constructor; [now apply charged_row_sound|assumption].
    + constructor; [rewrite charged_row_id; lia|].
      eapply Forall_impl; [exact Hids|]. simpl. intros; lia.
    + simpl. apply NoDup_cons. split; [|assumption].
      rewrite charged_row_id. intros Hin. apply list_elem_of_In, in_map_iff in Hin.
      destruct Hin as (q & Hq & Hin). rewrite Forall_forall in Hids.
      apply list_elem_of_In, Hids in Hin. lia.
    + simpl. apply NoDup_cons. split; [|assumption].
      intros Hin. apply list_elem_of_In in Hin.
      apply (reference_free_spec _ _ Hfree).
      replace (env_reference env) with (reference (charged_row env req db)); [assumption|].
      unfold charged_row. destruct (env_gateway env); reflexivity.
  - split; [|assumption].
    pose proof (get_payment_id _ _ _ Hp) as Hpid.
    destruct (apply_refund_fields amt p) as (Hi & _).
    assert (Hsound : row_sound p).
    { rewrite Forall_forall in Hrows. apply Hrows, list_elem_of_In.
      eapply get_payment_In; eassumption. }
    split; [|split; [|split]].
    + apply Forall_save_row; [|assumption]. now apply apply_refund_sound.
    + apply Forall_save_row; [|assumption]. rewrite Hi.
      rewrite Forall_forall in Hids. apply Hids, list_elem_of_In.
      eapply get_payment_In; eassumption.
    + now rewrite save_row_ids.
    + erewrite save_row_references; [assumption|assumption| |].
      * rewrite Hi, Hpid. eassumption.
      * unfold apply_refund. simpl. destruct (_ <=? _); reflexivity.
  - split; [|assumption]. split; [|split; [|split]].
    + apply Forall_map. eapply Forall_impl; [exact Hrows|].
      intros q. apply refund_if_successful_sound.
    + apply Forall_map. eapply Forall_impl; [exact Hids|].
      intros q. unfold refund_if_successful. destruct (decide _); simpl; auto.
    + rewrite map_map. erewrite map_ext; [exact Hnd|].
      intros q. unfold refund_if_successful. destruct (decide _); reflexivity.
    + rewrite map_map. erewrite map_ext; [exact Hrefs|].
      intros q. unfold refund_if_successful. destruct (decide _); reflexivity.
Qed.

(** X8.  What is stored about payments, after any sequence of operations.
    No stored payment is PENDING; its method is one of the four payment
    methods, its amount lies between 0.01 and 99999999.99, its order id and
    its own id are at least 1, it has a failure reason exactly when it is
    FAILED, and it has a gateway response.  Ids are below the next id of the
    sequence, and neither two ids nor two references coincide. *)
Theorem stored_payments_sound (ops : list Op) :
  store_sound (store (run ops initial_world)).
Proof.
  assert (H : store_sound (store (run ops initial_world))
              /\ 1 <= next_payment_id (store (run ops initial_world))).
  { induction ops as [|op ops IH] using rev_ind.
    - simpl. split; [|lia]. repeat split; constructor.
    - rewrite run_snoc. destruct IH as [IH Hnext].
      apply (store_sound_step (store (run ops initial_world))); auto.
      + apply reachable_ok.
      + apply step_shape, reachable_ok. }
  exact (proj1 H).
Qed.

Lemma get_payment_present pid ps :
  In pid (map payment_id ps) -> exists p, get_payment pid ps = Some p.
Proof.
  induction ps as [|q ps IH]; simpl; [tauto|]. intros Hin.
  destruct (decide (payment_id q = pid)); [eauto|]. apply IH. tauto.
Qed.

Lemma charge_payment_linked env db req :
  store_ok db -> ledger_linked db ->
  ledger_linked (store_after (charge_payment env db req)).
Proof.
  intros Hdb Hlinked.
  destruct (charge_is_valid req) eqn:Hvalid;
    [|unfold charge_payment; rewrite Hvalid; exact Hlinked].
  destruct (charge_proceeds_with db req) as [idem|] eqn:Hwith.
  - destruct (reference_taken (env_reference env) (payments db)) eqn:Hfree.
    + now rewrite (proj1 (charge_payment_abort env db req idem Hdb Hvalid Hwith) Hfree).
    + destruct (publish_returns (env_broker env)) eqn:Hret.
      * destruct (charge_payment_commit env db req idem Hdb Hvalid Hwith Hfree Hret)
          as (_ & Hps & _ & Hledger & _).
        intros k row. rewrite Hps, Hledger. simpl. rewrite charged_row_id.
        destruct (decide (c_idempotency_key req = k)) as [->|Hne].
        -- rewrite lookup_insert_eq. intros [= <-]. exists (next_payment_id db).
           split; [|now left]. unfold charge_record.
           destruct (env_gateway env); reflexivity.
        -- rewrite lookup_insert_ne by assumption. intros Hrow.
           destruct (Hlinked _ _ Hrow) as (pid & Hpid & Hin). eauto.
      * now destruct (proj2 (charge_payment_abort env db req idem Hdb Hvalid Hwith)
                        Hfree Hret) as (-> & _).
  - now destruct (charge_payment_settled env db req Hvalid Hwith) as (-> & _).
Qed.

Lemma refund_payment_linked b db pid req :
  ledger_linked db -> ledger_linked (store_after (refund_payment b db pid req)).
Proof.
  intros Hlinked. unfold refund_payment.
  destruct (refund_is_valid req); simpl; [|exact Hlinked].
  destruct (get_payment pid (payments db)) as [p|] eqn:Hp; [|exact Hlinked].
  destruct (bool_decide (status p = SUCCESS)); simpl; [|exact Hlinked].
  assert (Hin : In (payment_id p) (map payment_id (payments db)))
    by (apply in_map; eapply get_payment_In; eassumption).
  assert (Hdefaults : forall row0,
    ledger_linked (save_idempotency_key (refund_key pid (r_idempotency_key req))
                     {| payment := Some (payment_id p); request_data := RefundData req;
                        response_data := row0; idem_status := Idem.PROCESSING |} db)).
  { intros row0 k row. simpl.
    destruct (decide (refund_key pid (r_idempotency_key req) = k)) as [->|Hne].
    - rewrite lookup_insert_eq. intros [= <-]. eauto.
    - rewrite lookup_insert_ne by assumption. apply Hlinked. }
  unfold refund_transaction, get_or_create.
  destruct (idempotency_keys db !! refund_key pid (r_idempotency_key req))
    as [row|] eqn:Hrow; simpl negb; simpl andb.
  - destruct (bool_decide (idem_status row = Idem.COMPLETED)); [exact Hlinked|].
    destruct (_ <? _); [exact Hlinked|].
    case_publish; [|exact Hlinked]. simpl.
    intros k row'. simpl. rewrite save_row_ids.
    destruct (decide (refund_key pid (r_idempotency_key req) = k)) as [->|Hne].
    + rewrite lookup_insert_eq. intros [= <-]. simpl. apply (Hlinked _ _ Hrow).
    + rewrite lookup_insert_ne by assumption. apply Hlinked.
  - destruct (_ <? _); [apply Hdefaults|].
    case_publish; [|exact Hlinked]. simpl.
    intros k row'. simpl. rewrite save_row_ids.
    destruct (decide (refund_key pid (r_idempotency_key req) = k)) as [->|Hne].
    + rewrite lookup_insert_eq. intros [= <-]. simpl. eauto.
    + rewrite lookup_insert_ne by assumption. rewrite lookup_insert_ne by assumption.
      apply Hlinked.
Qed.

Lemma handle_order_cancellation_linked brokers db oid :
  store_ok db -> ledger_linked db ->
  ledger_linked (fst (handle_order_cancellation brokers db oid)).
Proof.
  intros Hdb Hlinked. unfold handle_order_cancellation.
  destruct oid as [o|]; [|exact Hlinked].
  destruct (decide (o = 0)); [exact Hlinked|].
  pose proof (cancellation_on_ok_store brokers db o Hdb) as H.
  destruct (cancellation_loop _ _ _ _) as [db' [] e|e]; [|exact Hlinked].
  destruct H as (-> & _). intros k row Hrow. simpl in *.
  destruct (Hlinked _ _ Hrow) as (pid & Hpid & Hin). exists pid. split; [assumption|].
  rewrite map_map. erewrite map_ext; [exact Hin|].
  intros q. unfold refund_if_successful. destruct (decide _); reflexivity.
Qed.

Lemma reachable_linked ops : ledger_linked (store (run ops initial_world)).
Proof.
  induction ops as [|op ops IH] using rev_ind.
  - intros k row H. simpl in H. rewrite lookup_empty in H. discriminate.
  - rewrite run_snoc. pose proof (reachable_ok ops) as Hdb.
    destruct op as [env req|b pid req|brokers oid]; simpl.
    + now apply charge_payment_linked.
    + now apply refund_payment_linked.
    + pose proof (handle_order_cancellation_linked brokers _ oid Hdb IH) as H.
      destruct (handle_order_cancellation brokers _ oid). exact H.
Qed.

(** X9.  A completed key is always replayed.  In a store reached by any
    sequence of operations every ledger record is linked to a stored
    payment; so a valid charge whose key has a COMPLETED record is answered
    200 with the current view of the linked payment, never 500, and does
    nothing else. *)
Theorem completed_key_replays (ops : list Op) (env : ChargeEnv)
    (req : ChargeRequest) (row : IdempotencyKey) :
  let db := store (run ops initial_world) in
  charge_is_valid req = true ->
  idempotency_keys db !! c_idempotency_key req = Some row ->
  idem_status row = Idem.COMPLETED ->
  exists pid p,
    payment row = Some pid
    /\ get_payment pid (payments db) = Some p
    /\ charge_payment env db req =
         {| store_after := db; response := ChargeReplayed (PaymentSerializer p);
            effects := no_effects |}.
Proof.
  intros db Hvalid Hrow Hst.
  destruct (reachable_linked ops _ _ Hrow) as (pid & Hpid & Hin).
  destruct (get_payment_present _ _ Hin) as (p & Hp).
  exists pid, p. split; [assumption|]. split; [assumption|].
  eapply charge_replayed_when_completed; eassumption.
Qed.

Lemma completed_key_replays_witness :
  exists pid p,
    Some 1 = Some pid
    /\ get_payment pid (payments (after_refund_of 3000)) = Some p
    /\ charge_payment gateway_declines (after_refund_of 3000) sample_charge =
         {| store_after := after_refund_of 3000;
            response := ChargeReplayed (PaymentSerializer p);
            effects := no_effects |}.
Proof.
  exact (completed_key_replays
           [Charge gateway_accepts sample_charge;
            Refund broker_up 1 (refund_of 3000 "refund-0001")]
           gateway_declines sample_charge
           {| payment := Some 1; request_data := ChargeData sample_charge;
              response_data := Some (PaymentData (PaymentSerializer unrefunded_row));
              idem_status := Idem.COMPLETED |}
           eq_refl eq_refl eq_refl).
Defined.

(* ===================================================================== *)
(** ** What reaches the gateway and the broker *)
(* ===================================================================== *)

(** X10.  The result of [publish_payment_event] says what happened to the
    message.  [True] is returned only when the one message, with the given
    routing key and data, went to the exchange; [False] only when nothing
    went out.  The function raises exactly when a connection was made, is
    not closed when the [finally] clause runs, and [connection.close()]
    raises; the message may have gone out before. *)
Theorem publish_result_truthful (b : Broker) (ty : string) (d : EventData) :
  match publish_payment_event b ty d with
  | (Returned true, sent) => sent = [message_of ty d] /\ delivers b = true
  | (Returned false, sent) => sent = [] /\ delivers b = false
  | (Raised, sent) =>
      sent = (if delivers b then [message_of ty d] else [])
      /\ connects b = true /\ is_closed b = false /\ close_returns b = false
  end
  /\ (fst (publish_payment_event b ty d) = Raised <-> publish_returns b = false).
Proof.
  unfold publish_payment_event, delivers, publish_returns, message_of.
  destruct b as [[] [] [] [] [] []]; simpl; repeat split; auto; discriminate.
Qed.

Lemma publish_sent b ty d :
  snd (publish_payment_event b ty d) = []
  \/ snd (publish_payment_event b ty d) = [message_of ty d].
Proof.
  unfold publish_payment_event, message_of.
  destruct b as [[] [] [] [] [] []]; simpl; auto.
Qed.

Lemma effects_sound_nil : effects_sound no_effects.
Proof. repeat split; simpl; auto. Qed.

Lemma effects_sound_gateway pid : effects_sound (eff_gateway pid).
Proof. repeat split; simpl; auto. Qed.

Lemma effects_sound_app e1 e2 :
  effects_sound e1 -> effects_sound e2 -> effects_sound (eff_app e1 e2).
Proof.
  intros (H1 & H2 & H3) (H4 & H5 & H6). unfold effects_sound. simpl.
  rewrite !length_app. split; [|split; [lia|apply Forall_app; auto]].
  apply Forall_app. split; (eapply Forall_impl; [eassumption|]);
    simpl; intros m Hm; apply in_or_app; auto.
Qed.

Lemma effects_sound_publish b ty d :
  In ty EVENT_TYPES ->
  effects_sound (eff_publish ty d (snd (publish_payment_event b ty d))).
Proof.
  intros Hty. unfold effects_sound. simpl.
  destruct (publish_sent b ty d) as [-> | ->]; simpl;
    repeat split; auto; repeat constructor; auto.
Qed.

Lemma charge_proceed_effects env req k idem db :
  match charge_proceed env req k idem db with
  | Commit _ _ e | Abort e =>
      effects_sound e /\ (length (gateway_calls e) <= 1)%nat
  end.
Proof.
  unfold charge_proceed.
  destruct (create_payment _ _ _) as [[p0 db1]|];
    [|split; [apply effects_sound_nil|simpl; lia]].
  destruct (env_gateway env) as [txn|why].
  - match goal with |- context [publish_payment_event ?b ?ty ?d] =>
      pose proof (effects_sound_publish b ty d ltac:(simpl; auto)) as Hs;
      destruct (publish_payment_event b ty d) as [[r|] sent] end; simpl in Hs;
      (split; [apply effects_sound_app; [apply effects_sound_gateway|exact Hs]
              |simpl; lia]).
  - match goal with |- context [publish_payment_event ?b ?ty ?d] =>
      pose proof (effects_sound_publish b ty d ltac:(simpl; auto)) as Hs;
      destruct (publish_payment_event b ty d) as [[r|] sent] end; simpl in Hs;
      (split; [apply effects_sound_app; [apply effects_sound_gateway|exact Hs]
              |simpl; lia]).
Qed.

Lemma charge_payment_effects env db req :
  effects_sound (effects (charge_payment env db req))
  /\ (length (gateway_calls (effects (charge_payment env db req))) <= 1)%nat.
Proof.
  unfold charge_payment.
  destruct (charge_is_valid req); simpl; [|split; [apply effects_sound_nil|simpl; lia]].
  unfold charge_transaction, get_or_create.
  assert (Hp : forall k idem db0,
    effects_sound (effects (atomic db (charge_proceed env req k idem db0)))
    /\ (length (gateway_calls (effects (atomic db (charge_proceed env req k idem db0))))
        <= 1)%nat).
  { intros k idem db0. pose proof (charge_proceed_effects env req k idem db0) as H.
    destruct (charge_proceed env req k idem db0); exact H. }
  destruct (idempotency_keys db !! c_idempotency_key req) as [row|]; [|apply Hp].
  destruct (idem_status row), (payment row) as [pid|]; try apply Hp;
    try (split; [apply effects_sound_nil|simpl; lia]).
  destruct (get_payment pid (payments db)); split;
    try apply effects_sound_nil; simpl; lia.
Qed.

Lemma refund_payment_effects b db pid req :
  effects_sound (effects (refund_payment b db pid req))
  /\ gateway_calls (effects (refund_payment b db pid req)) = [].
Proof.
  unfold refund_payment.
  destruct (refund_is_valid req); simpl; [|split; [apply effects_sound_nil|reflexivity]].
  destruct (get_payment pid (payments db)) as [p|];
    [|split; [apply effects_sound_nil|reflexivity]].
  destruct (bool_decide (status p = SUCCESS)); simpl;
    [|split; [apply effects_sound_nil|reflexivity]].
  unfold refund_transaction.
  destruct (get_or_create _ _ db) as [[idem created] db1].
  destruct (negb created && bool_decide (idem_status idem = Idem.COMPLETED));
    [split; [apply effects_sound_nil|reflexivity]|].
  destruct (_ <? _); [split; [apply effects_sound_nil|reflexivity]|].
  match goal with |- context [publish_payment_event ?b ?ty ?d] =>
    pose proof (effects_sound_publish b ty d ltac:(simpl; auto)) as Hs;
    destruct (publish_payment_event b ty d) as [[r|] sent] end; simpl in Hs;
    (split; [exact Hs|reflexivity]).
Qed.

Lemma cancellation_loop_effects brokers todo :
  forall db e,
    effects_sound e ->
    match cancellation_loop brokers todo db e with
    | Commit _ _ e' | Abort e' =>
        effects_sound e' /\ gateway_calls e' = gateway_calls e
    end.
Proof.
  induction todo as [|p rest IH]; intros db e He; simpl; [auto|].
  destruct (refunded_amount p <? amount p); [|apply IH; assumption].
  match goal with |- context [publish_payment_event ?b ?ty ?d] =>
    pose proof (effects_sound_publish b ty d ltac:(simpl; auto)) as Hs;
    destruct (publish_payment_event b ty d) as [[r|] sent] end; simpl in Hs.
  - match goal with |- context [cancellation_loop brokers rest ?d ?x] =>
      specialize (IH d x (effects_sound_app _ _ He Hs));
      destruct (cancellation_loop brokers rest d x) end;
      (destruct IH as [IH1 IH2]; split; [assumption|];
       rewrite IH2; simpl; apply app_nil_r).
  - split; [now apply effects_sound_app|]. simpl. apply app_nil_r.
Qed.

Lemma handle_order_cancellation_effects brokers db oid :
  effects_sound (snd (handle_order_cancellation brokers db oid))
  /\ gateway_calls (snd (handle_order_cancellation brokers db oid)) = [].
Proof.
  unfold handle_order_cancellation.
  destruct oid as [o|]; [|split; [apply effects_sound_nil|reflexivity]].
  destruct (decide (o = 0)); [split; [apply effects_sound_nil|reflexivity]|].
  pose proof (cancellation_loop_effects brokers (successful_payments_of o (payments db))
                db no_effects effects_sound_nil) as H.
  destruct (cancellation_loop _ _ _ _) as [db' [] e|e]; exact H.
Qed.

(** X11.  What reaches the outside, after any sequence of operations.  The
    gateway has been called at most once for each charge request; refunds
    and order cancellations never call it.  Every message that reached the
    exchange is one that [publish_payment_event] was called with, and every
    call was for [payment.succeeded], [payment.failed] or
    [payment.refunded]. *)
Theorem history_effects (ops : list Op) :
  let h := history (run ops initial_world) in
  (length (gateway_calls h) <= length (filter is_charge ops))%nat
  /\ effects_sound h.
Proof.
  induction ops as [|op ops IH] using rev_ind.
  - simpl. split; [lia|apply effects_sound_nil].
  - rewrite run_snoc. simpl in IH. destruct IH as [IHg IHs].
    rewrite filter_app, length_app.
    destruct op as [env req|b pid req|brokers oid]; simpl.
    + destruct (charge_payment_effects env (store (run ops initial_world)) req)
        as [Hs Hg].
      rewrite length_app. split; [lia|now apply effects_sound_app].
    + destruct (refund_payment_effects b (store (run ops initial_world)) pid req)
        as [Hs Hg].
      rewrite Hg, app_nil_r. split; [lia|now apply effects_sound_app].
    + pose proof (handle_order_cancellation_effects brokers
                    (store (run ops initial_world)) oid) as [Hs Hg].
      destruct (handle_order_cancellation _ _ _) as [db' e]. simpl in *.
      rewrite Hg, app_nil_r. split; [lia|now apply effects_sound_app].
Qed.

Lemma charge_created_view env db req v :
  store_ok db ->
  (response (charge_payment env db req) = PaymentSuccessful v
   \/ exists m, response (charge_payment env db req) = PaymentFailed m v) ->
  get_payment (v_payment_id v) (payments (store_after (charge_payment env db req)))
  = Some (charged_row env req db)
  /\ v = PaymentSerializer (charged_row env req db).
Proof.
  intros Hdb Hresp.
  pose proof (charge_payment_created env db req Hdb) as Hinv.
  assert (Hc : charge_is_valid req = true
               /\ (exists idem, charge_proceeds_with db req = Some idem)
               /\ reference_taken (env_reference env) (payments db) = false
               /\ publish_returns (env_broker env) = true).
  { destruct Hresp as [Hr|[m Hr]]; rewrite Hr in Hinv; exact Hinv. }
  destruct Hc as (Hvalid & (idem & Hwith) & Hfree & Hret).
  destruct (charge_payment_commit env db req idem Hdb Hvalid Hwith Hfree Hret)
    as (Hr & Hps & _).
  rewrite Hr in Hresp. rewrite Hps.
  assert (Hv : v = PaymentSerializer (charged_row env req db)).
  { unfold charge_response in Hresp.
    destruct (env_gateway env); destruct Hresp as [H|[m H]]; congruence. }
  split; [|assumption]. rewrite Hv. simpl.
  rewrite decide_True by reflexivity. reflexivity.
Qed.

(** X12.  Reading a payment back.  When a charge is answered 201 or 402, or
    a refund is answered 200 "processed", a GET of the payment, on the store
    the operation left, returns exactly the payment view of the answer; the
    view of a refund answer is that of the payment the refund was asked
    for. *)
Theorem get_payment_after_write :
  (forall env db req v,
     store_ok db ->
     (response (charge_payment env db req) = PaymentSuccessful v
      \/ exists m, response (charge_payment env db req) = PaymentFailed m v) ->
     get_payment_view (store_after (charge_payment env db req)) (v_payment_id v)
     = PaymentFound v)
  /\ (forall b db pid req amt v,
        response (refund_payment b db pid req) = RefundProcessed amt v ->
        v_payment_id v = pid
        /\ get_payment_view (store_after (refund_payment b db pid req)) pid
           = PaymentFound v).
Proof.
  split.
  - intros env db req v Hdb Hresp.
    destruct (charge_created_view env db req v Hdb Hresp) as [Hget ->].
    unfold get_payment_view. simpl v_payment_id in *. now rewrite Hget.
  - intros b db pid req amt v Hresp.
    destruct (refund_processed_inv _ _ _ _ _ _ Hresp) as (p & Hvalid & Hp & Hs).
    rewrite (refund_payment_on_success _ _ _ _ _ Hvalid Hp Hs) in *.
    destruct (refund_transaction_cases b pid req p db)
      as [(H & _)|[(H & _)|[(H & _)|(H & Hps & _)]]]; try congruence.
    rewrite H in Hresp. injection Hresp as <- <-.
    pose proof (get_payment_id _ _ _ Hp) as Hpid.
    destruct (apply_refund_fields (default (amount p - refunded_amount p) (r_amount req)) p)
      as (Hi & _).
    split; [simpl; congruence|].
    unfold get_payment_view. rewrite Hps.
    erewrite get_payment_save_row_eq; [reflexivity|eassumption|congruence].
Qed.

Lemma get_payment_after_write_witness :
  get_payment_view after_declined_charge 1
  = PaymentFound (PaymentSerializer (charged_row gateway_declines sample_charge empty_store))
  /\ get_payment_view (after_refund_of 3000) 1
     = PaymentFound (PaymentSerializer (apply_refund 3000 unrefunded_row)).
Proof.
  split.
  - exact (proj1 get_payment_after_write gateway_declines empty_store sample_charge
             (PaymentSerializer (charged_row gateway_declines sample_charge empty_store))
             empty_store_ok
             (or_intror (ex_intro _ "Card declined" eq_refl))).
  - exact (proj2 (proj2 get_payment_after_write broker_up after_charge 1
                    (refund_of 3000 "refund-0001") 3000
                    (PaymentSerializer (apply_refund 3000 unrefunded_row)) eq_refl)).
Defined.

(* ===================================================================== *)
(** ** The consumer of [order.cancelled] *)
(* ===================================================================== *)

Lemma cancellation_loop_aborts brokers p todo :
  In p todo -> refunded_amount p < amount p ->
  publish_returns (brokers (payment_id p)) = false ->
  forall db e, exists e',
    cancellation_loop brokers todo db e = Abort e'
    /\ (length (publish_calls e) < length (publish_calls e'))%nat.
Proof.
  intros Hin Hlt Hraise.
  induction todo as [|q rest IH]; [contradiction|]. intros db e. simpl.
  assert (Hstep : forall sent d,
    (length (publish_calls e)
     < length (publish_calls (eff_app e (eff_publish "payment.refunded" d sent))))%nat).
  { intros sent d. simpl. rewrite length_app. simpl. lia. }
  destruct (Z.ltb_spec (refunded_amount q) (amount q)) as [Hq|Hq].
  - match goal with |- context [publish_payment_event ?b ?ty ?d] =>
      destruct (publish_payment_event b ty d) as [[r|] sent] eqn:Hpub;
      pose proof (Hstep sent d) as Hlen end.
    + destruct Hin as [->|Hin].
      * simpl in Hpub.
        match type of Hpub with publish_payment_event ?b ?ty ?d = _ =>
          pose proof (publish_raises_spec b ty d Hraise) as Hr end.
        rewrite Hpub in Hr. discriminate Hr.
      * match goal with |- context [cancellation_loop brokers rest ?d ?x] =>
          destruct (IH Hin d x) as (e' & -> & Hlen') end.
        exists e'. split; [reflexivity|lia].
    + eexists. split; [reflexivity|exact Hlen].
  - destruct Hin as [->|Hin]; [lia|]. apply IH. assumption.
Qed.

Section Consumer.

Variable int_of_string : string -> option Z.

(** X13.  Which messages the consumer acknowledges.  A body is rejected
    ([basic_nack], not requeued) exactly when it is not JSON, is JSON but
    not an object, or is an [order.cancelled] whose [data] is not an object;
    every other body is acknowledged.  A rejected body, and a body whose
    [event_type] is not [order.cancelled], changes nothing in the store and
    publishes nothing. *)
Theorem callback_acknowledgement (brokers : Z -> Broker) (db : Store)
    (body : option Json) :
  let r := callback int_of_string brokers db body in
  (snd r = Nack <->
     match body with
     | Some (JsObj message) =>
         obj_get "event_type" message = Some (JsStr "order.cancelled")
         /\ match obj_get "data" message with
            | None | Some (JsObj _) => False
            | Some _ => True
            end
     | _ => True
     end)
  /\ (snd r = Nack -> fst r = (db, no_effects))
  /\ (forall message,
        body = Some (JsObj message) ->
        obj_get "event_type" message <> Some (JsStr "order.cancelled") ->
        r = (db, no_effects, Ack)).
Proof.
  intros r. subst r. unfold callback.
  assert (Hfin : forall (P : Prop) (a : Acknowledgement) (x : Store * Effects),
            (a = Nack <-> P) -> (a = Nack -> x = (db, no_effects)) ->
            (forall message, body = Some (JsObj message) ->
               obj_get "event_type" message <> Some (JsStr "order.cancelled") ->
               (x, a) = (db, no_effects, Ack)) ->
            (snd (x, a) = Nack <-> P) /\ (snd (x, a) = Nack -> fst (x, a) = (db, no_effects))
            /\ (forall message, body = Some (JsObj message) ->
                  obj_get "event_type" message <> Some (JsStr "order.cancelled") ->
                  (x, a) = (db, no_effects, Ack))) by (simpl; auto).
  destruct body as [[| | | | |message]|];
    try (apply Hfin; [tauto|auto|discriminate]).
  destruct (obj_get "event_type" message) as [[| | |ty| |]|] eqn:Hty;
    try (apply Hfin; [split; [discriminate|intros [H _]; discriminate H]
                     |discriminate|reflexivity]).
  destruct (decide (ty = "order.cancelled")) as [->|Hne].
  - destruct (obj_get "data" message) as [[| | | | |fields]|]; simpl default; cbv iota;
      try (apply Hfin; [tauto|auto|intros m [= <-] Hm; congruence]).
    + destruct (handle_order_cancellation _ _ _) as [db' e].
      apply Hfin; [split; [discriminate|tauto]|discriminate
                  |intros m [= <-] Hm; congruence].
    + destruct (handle_order_cancellation _ _ _) as [db' e].
      apply Hfin; [split; [discriminate|tauto]|discriminate
                  |intros m [= <-] Hm; congruence].
  - apply Hfin; [split; [discriminate|intros [H _]; congruence]
                |discriminate|reflexivity].
Qed.

(** X14.  An [order.cancelled] message is acknowledged whether or not its
    refunds were kept.  On a consistent store, when the order has a
    successful payment for which [publish_payment_event] raises, the
    handler's transaction is rolled back, so no payment of the store is
    refunded, while at least one [payment.refunded] was handed to the
    publisher; the message is acknowledged all the same and will not come
    again. *)
Theorem cancellation_acknowledged_after_rollback (brokers : Z -> Broker)
    (db : Store) (o : Z) (p : Payment) :
  store_ok db ->
  In p (payments db) ->
  order_id p = o ->
  status p = SUCCESS ->
  publish_returns (brokers (payment_id p)) = false ->
  exists e,
    callback int_of_string brokers db (cancellation_body (JsNum o)) = (db, e, Ack)
    /\ publish_calls e <> [].
Proof.
  intros Hdb Hin Ho Hs Hraise.
  pose proof Hdb as [Hrows _]. rewrite Forall_forall in Hrows.
  destruct (Hrows p (proj2 (list_elem_of_In _ _) Hin)) as (Hok & Hamt & Hord & _).
  pose proof (success_unrefunded _ Hok Hs) as Hzero.
  assert (Hne : o <> 0) by lia.
  unfold callback, cancellation_body. simpl.
  destruct (Z.eqb_spec o 0) as [|_]; [contradiction|]. simpl.
  unfold handle_order_cancellation. rewrite decide_False by assumption.
  assert (Htodo : In p (successful_payments_of o (payments db))).
  { apply list_elem_of_In, list_elem_of_filter. split; [auto|].
    now apply list_elem_of_In. }
  destruct (cancellation_loop_aborts brokers p _ Htodo ltac:(lia) Hraise db no_effects)
    as (e' & -> & Hlen).
  exists e'. split; [reflexivity|].
  intros Hnil. rewrite Hnil in Hlen. simpl in Hlen. lia.
Qed.

(** X15.  Redelivery.  On a store reached by any sequence of operations and
    with the publisher returning, a body that is delivered a second time is
    answered as the first time, changes nothing and publishes nothing,
    whatever the body is. *)
Theorem callback_redelivery (ops : list Op) (brokers brokers' : Z -> Broker)
    (body : option Json) :
  (forall pid, publish_returns (brokers pid) = true) ->
  let r := callback int_of_string brokers (store (run ops initial_world)) body in
  callback int_of_string brokers' (fst (fst r)) body
  = (fst (fst r), no_effects, snd r).
Proof.
  intros Hret r. subst r. pose proof (reachable_ok ops) as Hdb.
  set (db := store (run ops initial_world)) in *.
  unfold callback.
  destruct body as [[| | | | |message]|]; simpl; try reflexivity.
  destruct (obj_get "event_type" message) as [[| | |ty| |]|]; try reflexivity.
  destruct (decide (ty = "order.cancelled")); [|reflexivity].
  destruct (default (JsObj []) (obj_get "data" message)); try reflexivity.
  destruct (order_id_argument int_of_string (obj_get "order_id" fields)) as [o|];
    [|reflexivity].
  destruct (handle_order_cancellation_spec brokers db o Hdb Hret) as (Hfst & _).
  destruct (handle_order_cancellation brokers db (Some o)) as [db' eff].
  cbn [fst snd] in *. subst db'. now rewrite handle_order_cancellation_again.
Qed.

End Consumer.

Lemma cancellation_acknowledged_after_rollback_witness :
  exists e,
    callback (fun _ => None) (fun _ => broker_lost_on_close) after_charge
      (cancellation_body (JsNum 7)) = (after_charge, e, Ack)
    /\ publish_calls e <> [].
Proof.
  exact (cancellation_acknowledged_after_rollback (fun _ => None)
           (fun _ => broker_lost_on_close) after_charge 7 unrefunded_row
           (proj1 (run_ok [Charge gateway_accepts sample_charge] initial_world
                     empty_store_ok))
           (or_introl eq_refl) eq_refl eq_refl eq_refl).
Defined.

Lemma callback_redelivery_witness :
  let r := callback (fun _ => None) (fun _ => broker_up) after_charge
             (cancellation_body (JsNum 7)) in
  callback (fun _ => None) (fun _ => broker_down) (fst (fst r)) (cancellation_body (JsNum 7))
  = (fst (fst r), no_effects, snd r).
Proof.
  exact (callback_redelivery (fun _ => None) [Charge gateway_accepts sample_charge]
           (fun _ => broker_up) (fun _ => broker_down) (cancellation_body (JsNum 7))
           (fun _ => eq_refl)).
Defined.

(* ===================================================================== *)
(** ** [list_payments] *)
(* ===================================================================== *)

Lemma get_page_size_bounds int_of_string q :
  (1 <= get_page_size int_of_string q <= 100)%nat.
Proof.
  unfold get_page_size, page_size, max_page_size.
  destruct (q_page_size q) as [s|]; [|lia].
  destruct (int_of_string s) as [n|]; [|lia].
  destruct (Z.leb_spec n 0); lia.
Qed.

Lemma filter_queryset_spec int_of_string q ps qs :
  filter_queryset int_of_string q ps = Some qs ->
  forall p, In p qs <-> In p ps /\ matches int_of_string q p.
Proof.
  unfold filter_queryset, matches. intros H p.
  destruct (given (q_order_id q)) as [so|].
  - destruct (int_of_string so) as [n|] eqn:Hn; [|discriminate].
    injection H as <-.
    destruct (given (q_status q)) as [ss|], (given (q_method q)) as [sm|];
      rewrite <- !list_elem_of_In, ?list_elem_of_filter; split.
    all: try (intros (H1 & H2 & H3 & H4); repeat split; auto;
              intros s [= <-]; congruence).
    all: try (intros (H1 & H2 & H3); repeat split; auto;
              try (intros s [= <-]; congruence); discriminate).
    all: try (intros (H1 & H2); repeat split; auto;
              try (intros s [= <-]; congruence); discriminate).
    all: intros (H1 & H2 & H3 & H4); repeat split; auto.
    all: try (specialize (H2 _ eq_refl); congruence).
  - injection H as <-.
    destruct (given (q_status q)) as [ss|], (given (q_method q)) as [sm|];
      rewrite <- !list_elem_of_In, ?list_elem_of_filter; split.
    all: try (intros (H1 & H2 & H3); repeat split; auto;
              try (intros s [= <-]; congruence); discriminate).
    all: try (intros (H1 & H2); repeat split; auto;
              try (intros s [= <-]; congruence); discriminate).
    all: try (intros H1; repeat split; auto; discriminate).
    all: intros (H1 & H2 & H3 & H4); repeat split; auto.
Qed.

Lemma filter_queryset_sublist int_of_string q ps qs :
  filter_queryset int_of_string q ps = Some qs -> sublist qs ps.
Proof.
  unfold filter_queryset. intros H.
  assert (Hf : forall (P : Payment -> Prop) `{!forall x, Decision (P x)} (l : list Payment),
            sublist l ps -> sublist (filter P l) ps).
  { intros P ? l Hl. etransitivity; [apply sublist_filter|exact Hl]. }
  destruct (given (q_order_id q)) as [so|].
  - destruct (int_of_string so) as [n|]; [|discriminate]. injection H as <-.
    destruct (given (q_status q)), (given (q_method q)); repeat apply Hf; reflexivity.
  - injection H as <-.
    destruct (given (q_status q)), (given (q_method q)); repeat apply Hf; reflexivity.
Qed.

Lemma page_slice_split {A} number per_page (l : list A) :
  l = take ((number - 1) * per_page) l ++ page_slice number per_page l
      ++ drop per_page (drop ((number - 1) * per_page) l).
Proof. unfold page_slice. now rewrite !take_drop. Qed.

Section ListPayments.

Variable int_of_string : string -> option Z.

(** X16.  What a page of [list_payments] holds.  When the answer is a page,
    its [count] is the number of stored payments that pass every filter
    that was given (a parameter that is empty filters nothing), in the
    order of the table; its results are the list views of a run of
    consecutive payments among those; and they are at most as many as the
    page size in force, which is never more than 100. *)
Theorem list_payments_page (db : Store) (q : ListQuery) (count : nat)
    (previous next : bool) (results : list PaymentListView) :
  list_payments int_of_string db q = PageOf count previous next results ->
  exists queryset before after,
    (forall p, In p queryset <-> In p (payments db) /\ matches int_of_string q p)
    /\ sublist queryset (payments db)
    /\ count = length queryset
    /\ map PaymentListSerializer queryset = before ++ results ++ after
    /\ (length results <= get_page_size int_of_string q <= 100)%nat.
Proof.
  unfold list_payments. intros H.
  destruct (filter_queryset int_of_string q (payments db)) as [qs|] eqn:Hqs;
    [|discriminate].
  destruct (get_page_number _ _ _) as [number|]; [|discriminate].
  injection H as <- _ _ <-.
  set (per := get_page_size int_of_string q).
  exists qs, (map PaymentListSerializer (take ((number - 1) * per) qs)),
    (map PaymentListSerializer (drop per (drop ((number - 1) * per) qs))).
  split; [now apply filter_queryset_spec|].
  split; [eapply filter_queryset_sublist; eassumption|].
  split; [reflexivity|]. split.
  - rewrite <- !map_app. f_equal. apply page_slice_split.
  - pose proof (get_page_size_bounds int_of_string q). fold per in H.
    split; [|lia]. rewrite length_map. unfold page_slice.
    rewrite length_take. lia.
Qed.




End ListPayments.

Lemma list_payments_page_witness :
  exists queryset before after,
    (forall p, In p queryset <->
               In p (payments after_charge)
               /\ matches read_small_number successful_of_order_7 p)
    /\ sublist queryset (payments after_charge)
    /\ 1%nat = length queryset
    /\ map PaymentListSerializer queryset
       = before ++ [PaymentListSerializer unrefunded_row] ++ after
    /\ (length [PaymentListSerializer unrefunded_row]
        <= get_page_size read_small_number successful_of_order_7 <= 100)%nat.
Proof.
  exact (list_payments_page read_small_number after_charge successful_of_order_7
           1 false false [PaymentListSerializer unrefunded_row] eq_refl).
Defined.


(* ===================================================================== *)
(** ** Refunds after an order was cancelled *)
(* ===================================================================== *)

(** X18.  No refund after a cancellation.  On a store reached by any
    sequence of operations, once an [order.cancelled] for an order has been
    handled with the publisher returning, every valid refund request for a
    payment of that order is answered [invalid_status] and changes nothing:
    the payment is REFUNDED by the handler, or was not SUCCESS before. *)
Theorem refund_after_cancellation (ops : list Op) (brokers : Z -> Broker)
    (b : Broker) (o pid : Z) (req : RefundRequest) (p : Payment) :
  (forall pid, publish_returns (brokers pid) = true) ->
  let db := store (run ops initial_world) in
  let db' := fst (handle_order_cancellation brokers db (Some o)) in
  get_payment pid (payments db) = Some p ->
  order_id p = o ->
  refund_is_valid req = true ->
  refund_payment b db' pid req =
    {| store_after := db'; response := InvalidStatus; effects := no_effects |}.
Proof.
  intros Hret db db' Hp Ho Hvalid.
  destruct (handle_order_cancellation_spec brokers db o (reachable_ok ops) Hret)
    as (Hfst & _).
  fold db' in Hfst.
  apply refund_payment_not_success with (p := refund_if_successful o p);
    [assumption| |].
  - rewrite Hfst. simpl. rewrite get_payment_map, Hp; [reflexivity|].
    intros q. unfold refund_if_successful. destruct (decide _); reflexivity.
  - unfold refund_if_successful.
    destruct (decide (order_id p = o /\ status p = SUCCESS)) as [|Hn]; [discriminate|].
    intros Hs. apply Hn. auto.
Qed.

Lemma refund_after_cancellation_witness :
  let db' := fst (handle_order_cancellation (fun _ => broker_up) after_charge (Some 7)) in
  refund_payment broker_up db' 1 (refund_of 3000 "refund-0001") =
    {| store_after := db'; response := InvalidStatus; effects := no_effects |}.
Proof.
  exact (refund_after_cancellation [Charge gateway_accepts sample_charge]
           (fun _ => broker_up) broker_up 7 1 (refund_of 3000 "refund-0001")
           unrefunded_row (fun _ => eq_refl) eq_refl eq_refl eq_refl).
Defined.
